(** * Companion Facebook provider: error classification, list, download,
      thumbnail, size and the listing adapter glue.

    Shallow embedding of
    [packages/@uppy/companion/src/server/provider/facebook/index.js].

    JavaScript values are a small universe [JsVal]; an expression that can
    raise a [TypeError] lives in the [Completion] monad; the callbacks the
    provider invokes ([done], [onData], [logger.error]) and the requests it
    issues are recorded, in order, in a trace of [Event]s. *)

From Stdlib Require Import ZArith List String Bool Lia.
From Stdlib Require Import DecimalString Sorting.Sorted Sorting.Permutation.
Import ListNotations.
Local Open Scope string_scope.
Local Open Scope Z_scope.

Set Warnings "-register-all".

(** ** JavaScript values *)

(** Numbers are the integral ones (status codes, error codes, sizes); the
    instances of the classes of [../error] and of [Error] carry their
    constructor arguments (the text of an engine-raised [TypeError] is not
    modelled); a [Buffer] carries its content. *)
Inductive JsVal : Type :=
| JUndefined
| JNull
| JBool (b : bool)
| JNum (n : Z)
| JStr (s : string)
| JArr (elems : list JsVal)
| JObj (fields : list (string * JsVal))
| JBuffer (data : string)
| JError (message : string)                      (* new Error(message) *)
| JTypeError                                     (* raised by the engine *)
| JProviderAuthError                             (* new ProviderAuthError() *)
| JProviderApiError (message : JsVal) (statusCode : Z).

(** ToBoolean. *)
Definition truthy (v : JsVal) : bool :=
  match v with
  | JUndefined | JNull => false
  | JBool b => b
  | JNum n => negb (n =? 0)
  | JStr s => negb (String.eqb s "")
  | _ => true
  end.

(** Outcome of evaluating an expression: a value, or a thrown [TypeError]. *)
Inductive Completion (A : Type) : Type :=
| Ok (a : A)
| Throw.
Arguments Ok {A} a.
Arguments Throw {A}.

Definition bind {A B} (c : Completion A) (k : A -> Completion B) : Completion B :=
  match c with
  | Ok a => k a
  | Throw => Throw
  end.

Notation "x <- c ;; k" := (bind c (fun x => k))
  (at level 61, c at next level, right associativity).

Fixpoint lookup (fields : list (string * JsVal)) (p : string) : JsVal :=
  match fields with
  | [] => JUndefined
  | (k, v) :: rest => if String.eqb k p then v else lookup rest p
  end.

(** [v.p] for a property name [p] that is not inherited from a prototype
    (the provider reads [body], [error], [code], [message], [email],
    [images], [source], [size]). *)
Definition get (v : JsVal) (p : string) : Completion JsVal :=
  match v with
  | JUndefined | JNull => Throw
  | JObj fields => Ok (lookup fields p)
  | JError m => Ok (if String.eqb p "message" then JStr m else JUndefined)
  | JProviderApiError m c =>
      Ok (if String.eqb p "message" then m
          else if String.eqb p "statusCode" then JNum c
          else JUndefined)
  | _ => Ok JUndefined
  end.

(** [a === b] against a number literal. *)
Definition strict_eq_num (v : JsVal) (n : Z) : bool :=
  match v with
  | JNum m => m =? n
  | _ => false
  end.

(** Decimal rendering of an integral number inside a template literal. *)
Definition number_to_string (n : Z) : string :=
  NilZero.string_of_int (Z.to_int n).

(** ** Responses of the HTTP client *)

(** The [http.IncomingMessage] handed to a callback: [statusCode] is always
    a number, [body] is whatever the client parsed (an object for a JSON
    body, a string otherwise, [undefined] when there is none). *)
Record Response : Type := mkResponse {
  statusCode : Z;
  body : JsVal
}.

(** ** Requests, replies and the trace of a call *)

Inductive Method : Type := GET | DELETE.

(** One call of the authenticated client:
    [this.client.get(url).qs(qs).auth(token).request(cb)]. *)
Record Request : Type := mkRequest {
  method : Method;
  url : string;
  qs : list (string * string);
  auth : string
}.

(** The arguments [(err, resp, body)] the client passes to its callback. *)
Record Reply : Type := mkReply {
  err : JsVal;
  resp : option Response;
  rbody : JsVal
}.

(** Settlement of the promise returned by [getURLMeta]. *)
Inductive Settled : Type :=
| Resolved (value : JsVal)
| Rejected (reason : JsVal).

(** Events emitted by the stream returned by [request(url)]; [SData] is
    emitted by the response object of the latest ['response'] event. *)
Inductive StreamEvent : Type :=
| SResponse (resp : Response)
| SData (chunk : string)
| SEnd
| SError (message : string).

(** What a call does, in order. [Deliver err value] is one invocation of
    the caller's callback ([done (err, value)] or [onData (err, value)], a
    missing argument being [undefined]); [Uncaught] is a [TypeError]
    escaping the running callback, after which the call does nothing. *)
Inductive Event : Type :=
| EvRequest (rq : Request)
| EvProbe (url : JsVal)
| EvStream (url : JsVal)
| EvLog (e : JsVal) (tag : string)
| Deliver (err value : JsVal)
| Uncaught.

Definition Trace : Type := list Event.

Definition try {A} (c : Completion A) (k : A -> Trace) : Trace :=
  match c with
  | Ok a => k a
  | Throw => [Uncaught]
  end.

(** The normalized request object [{ directory, id, token, query }]. *)
Record Query : Type := mkQuery { cursor : option string }.

Record Params : Type := mkParams {
  directory : option string;
  id : string;
  token : string;
  query : option Query
}.

(** A [string | null] argument where the code tests it for truthiness:
    [null] and the empty string are falsy. *)
Definition whenTruthy (s : option string) : option string :=
  match s with
  | Some s => if String.eqb s "" then None else Some s
  | None => None
  end.

(** The functions of [./adapter] that [adaptData] calls; they are pure
    extractors over the raw payload. *)
Record Adapter : Type := mkAdapter {
  getItemSubList : JsVal -> JsVal;
  isFolder : JsVal -> JsVal;
  getItemIcon : JsVal -> JsVal;
  getItemName : JsVal -> JsVal;
  getMimeType : JsVal -> JsVal;
  getItemId : JsVal -> JsVal;
  getItemThumbnailUrl : JsVal -> JsVal;
  getItemRequestPath : JsVal -> JsVal;
  getItemModifiedDate : JsVal -> JsVal;
  getNextPagePath : JsVal -> Query -> option string -> JsVal
}.

(** ** The provider *)

Module Facebook.

(** [static get authProvider ()]. *)
Definition authProvider : string := "facebook".

Definition fallbackMessage (resp : Response) : string :=
  "request to " ++ authProvider ++ " returned " ++ number_to_string (statusCode resp).

(** [_error (err, resp)], lines 174-187. *)
Definition _error (err : JsVal) (resp : option Response) : Completion JsVal :=
  match resp with
  | Some resp =>
      isAuth <- (if truthy (body resp)
                 then e <- get (body resp) "error" ;;
                      c <- get e "code" ;;
                      Ok (strict_eq_num c 190)
                 else Ok false) ;;
      if (isAuth : bool) then Ok JProviderAuthError
      else
        msg <- (if truthy (body resp)
                then e <- get (body resp) "error" ;;
                     if truthy e then get e "message"
                     else Ok (JStr (fallbackMessage resp))
                else Ok (JStr (fallbackMessage resp))) ;;
        Ok (JProviderApiError msg (statusCode resp))
  | None => Ok err
  end.

Section Provider.

(** The collaborators of a provider instance: the authenticated client,
    [getURLMeta], the [request] module, the adapter, and the measure by
    which image variants are ordered. *)
Variable client : Request -> Reply.
Variable getURLMeta : JsVal -> Settled.
Variable request : JsVal -> list StreamEvent.
Variable adapter : Adapter.
Variable resolution : JsVal -> Z.

(** [err || resp.statusCode !== 200]. *)
Definition failed (r : Reply) : Completion bool :=
  if truthy (err r) then Ok true
  else match resp r with
       | Some rs => Ok (negb (statusCode rs =? 200))
       | None => Throw
       end.

Fixpoint insertImage (x : JsVal) (l : list JsVal) : list JsVal :=
  match l with
  | [] => [x]
  | y :: l' => if resolution x <=? resolution y then x :: y :: l'
               else y :: insertImage x l'
  end.

(** Modelled from the spec: [adapter.sortImages] is not part of the sources
    at hand; section 4.1 gives it as ordering the image variants by
    ascending resolution, stable, ties kept in their original order. *)
Fixpoint sortImages (images : list JsVal) : list JsVal :=
  match images with
  | [] => []
  | x :: l => insertImage x (sortImages l)
  end.

(** [_getMediaUrl (body)], lines 77-80. [sortImages] is applied to an
    array; [sortedImages[sortedImages.length - 1]] of an empty array is
    [undefined]. *)
Definition _getMediaUrl (body : JsVal) : Completion JsVal :=
  images <- get body "images" ;;
  match images with
  | JArr l =>
      let sortedImages := sortImages l in
      get (last sortedImages JUndefined) "source"
  | _ => Throw
  end.

Definition adaptItem (item : JsVal) : JsVal :=
  JObj [ ("isFolder", isFolder adapter item);
         ("icon", getItemIcon adapter item);
         ("name", getItemName adapter item);
         ("mimeType", getMimeType adapter item);
         ("size", JNull);
         ("id", getItemId adapter item);
         ("thumbnail", getItemThumbnailUrl adapter item);
         ("requestPath", getItemRequestPath adapter item);
         ("modifiedDate", getItemModifiedDate adapter item) ].

(** [adaptData (res, username, directory, currentQuery)], lines 153-172;
    [items.forEach] raises when [items] is not an array. *)
Definition adaptData (res username : JsVal) (directory : option string)
    (currentQuery : Query) : Completion JsVal :=
  match getItemSubList adapter res with
  | JArr items =>
      Ok (JObj [ ("username", username);
                 ("items", JArr (map adaptItem items));
                 ("nextPagePath", getNextPagePath adapter res currentQuery directory) ])
  | _ => Throw
  end.

Definition usernameRequest (token : string) : Request :=
  mkRequest GET "me" [("fields", "email")] token.

(** [_getUsername (token, done)], lines 62-75. *)
Definition _getUsername (token : string) (done : JsVal -> JsVal -> Trace) : Trace :=
  let r := client (usernameRequest token) in
  EvRequest (usernameRequest token) ::
  try (failed r) (fun f =>
    if (f : bool) then
      try (_error (err r) (resp r)) (fun e =>
        EvLog e "provider.facebook.user.error" :: done e JUndefined)
    else
      try (get (rbody r) "email") (fun email => done JNull email)).

Definition defaultQuery (q : option Query) : Query :=
  match q with
  | Some q => q
  | None => mkQuery None
  end.

Definition listRequest (p : Params) : Request :=
  let query := defaultQuery (query p) in
  let after := match whenTruthy (cursor query) with
               | Some c => [("after", c)]
               | None => []
               end in
  match whenTruthy (directory p) with
  | Some d =>
      mkRequest GET ("https://graph.facebook.com/" ++ d ++ "/photos")
        (("fields", "icon,images,name,width,height,created_time") :: after) (token p)
  | None =>
      mkRequest GET "https://graph.facebook.com/me/albums"
        (("fields", "name,cover_photo,created_time,type") :: after) (token p)
  end.

Definition itemRequest (p : Params) : Request :=
  mkRequest GET ("https://graph.facebook.com/" ++ id p) [("fields", "images")] (token p).

(** The handlers that [download] installs on the stream, run over the
    events the stream emits; [listening] tells whether the ['data'] handler
    has been attached to the response. *)
Fixpoint forward (listening : bool) (events : list StreamEvent) : Trace :=
  match events with
  | [] => []
  | SResponse resp :: rest =>
      if negb (statusCode resp =? 200) then
        match _error JNull (Some resp) with
        | Ok e => Deliver e JUndefined :: forward false rest
        | Throw => [Uncaught]
        end
      else forward true rest
  | SData chunk :: rest =>
      if listening then Deliver JNull (JBuffer chunk) :: forward listening rest
      else forward listening rest
  | SEnd :: rest => Deliver JNull JNull :: forward listening rest
  | SError m :: rest =>
      EvLog (JError m) "provider.facebook.download.url.error"
        :: Deliver (JError m) JUndefined :: forward listening rest
  end.

(** [download ({ id, token }, onData)], lines 82-109. *)
Definition download (p : Params) : Trace :=
  let r := client (itemRequest p) in
  EvRequest (itemRequest p) ::
  try (failed r) (fun f =>
    if (f : bool) then
      try (_error (err r) (resp r)) (fun e =>
        [EvLog e "provider.facebook.download.error"; Deliver e JUndefined])
    else
      try (_getMediaUrl (rbody r)) (fun mediaUrl =>
        EvStream mediaUrl :: forward false (request mediaUrl))).

(** [thumbnail (_, done)], lines 111-116. *)
Definition thumbnail (p : Params) : Trace :=
  let err := JError "call to thumbnail is not implemented" in
  [EvLog err "provider.facebook.thumbnail.error"; Deliver err JUndefined].

(** [size ({ id, token }, done)], lines 118-137. A [TypeError] raised by
    the destructuring in [then] rejects the chained promise and reaches
    [catch]. The callback [done] is taken to return: were [done (null, size)]
    to raise inside [then], [catch] would log that and call [done ()] as
    well. *)
Definition size (p : Params) : Trace :=
  let r := client (itemRequest p) in
  EvRequest (itemRequest p) ::
  try (failed r) (fun f =>
    if (f : bool) then
      try (_error (err r) (resp r)) (fun e =>
        [EvLog e "provider.facebook.size.error"; Deliver e JUndefined])
    else
      try (_getMediaUrl (rbody r)) (fun mediaUrl =>
        EvProbe mediaUrl ::
        match getURLMeta mediaUrl with
        | Resolved v =>
            match get v "size" with
            | Ok size => [Deliver JNull size]
            | Throw => [EvLog JTypeError "provider.facebook.size.error";
                        Deliver JUndefined JUndefined]
            end
        | Rejected e =>
            [EvLog e "provider.facebook.size.error"; Deliver JUndefined JUndefined]
        end)).

Definition logoutRequest (p : Params) : Request :=
  mkRequest DELETE "me/permissions" [] (token p).

(** [logout ({ token }, done)], lines 139-151. *)
Definition logout (p : Params) : Trace :=
  let r := client (logoutRequest p) in
  EvRequest (logoutRequest p) ::
  try (failed r) (fun f =>
    if (f : bool) then
      EvLog (err r) "provider.facebook.logout.error" ::
      try (_error (err r) (resp r)) (fun e => [Deliver e JUndefined])
    else [Deliver JNull (JObj [("revoked", JBool true)])]).

(** [list ({ directory, token, query }, done)], lines 27-60. *)
Definition list (p : Params) : Trace :=
  let r := client (listRequest p) in
  EvRequest (listRequest p) ::
  try (failed r) (fun f =>
    if (f : bool) then
      try (_error (err r) (resp r)) (fun e =>
        [EvLog e "provider.facebook.list.error"; Deliver e JUndefined])
    else
      _getUsername (token p) (fun err username =>
        if truthy err then [Deliver err JUndefined]
        else try (adaptData (rbody r) username (directory p) (defaultQuery (query p)))
               (fun data => [Deliver JNull data]))).

End Provider.

End Facebook.

(** ** Vocabulary of the specification *)

Definition nullish (v : JsVal) : bool :=
  match v with
  | JUndefined | JNull => true
  | _ => false
  end.

(** The [error] member of a response body; a body that is not an object
    literal has none. *)
Definition errorOf (body : JsVal) : JsVal :=
  match body with
  | JObj fields => lookup fields "error"
  | _ => JUndefined
  end.

(** The body carries Facebook's invalid-token marker: an error object whose
    [code] is the number 190. *)
Definition carriesInvalidTokenMarker (body : JsVal) : bool :=
  match errorOf body with
  | JObj fields => strict_eq_num (lookup fields "code") 190
  | _ => false
  end.

Definition hasAuthMarker (resp : option Response) : bool :=
  match resp with
  | Some r => carriesInvalidTokenMarker (body r)
  | None => false
  end.

(** The provider's own error message, when the body has one. *)
Definition providerMessage (body : JsVal) : option JsVal :=
  match errorOf body with
  | JObj fields =>
      match lookup fields "message" with
      | JUndefined => None
      | m => Some m
      end
  | _ => None
  end.

(** The classification as the specification words it: the provider's
    message when the body has one, the fallback message otherwise; the raw
    transport error when there is no response. *)
Definition statedClassification (err : JsVal) (resp : option Response) : JsVal :=
  match resp with
  | Some r =>
      JProviderApiError
        (match providerMessage (body r) with
         | Some m => m
         | None => JStr (Facebook.fallbackMessage r)
         end)
        (statusCode r)
  | None => err
  end.

(** The [message] member of an error value, [undefined] when it has none. *)
Definition messageOf (e : JsVal) : JsVal :=
  match e with
  | JObj fields => lookup fields "message"
  | JError m => JStr m
  | JProviderApiError m _ => m
  | _ => JUndefined
  end.

(** The classification by the presence of an [error] member: its [message]
    when the body and its [error] member are truthy, the fallback message
    otherwise. *)
Definition classification (err : JsVal) (resp : option Response) : JsVal :=
  match resp with
  | Some r =>
      JProviderApiError
        (if truthy (body r) && truthy (errorOf (body r))
         then messageOf (errorOf (body r))
         else JStr (Facebook.fallbackMessage r))
        (statusCode r)
  | None => err
  end.

(** The response has no body, or its body has an [error] member that is
    neither [undefined] nor [null]. *)
Definition bodyAbsentOrHasError (resp : option Response) : bool :=
  match resp with
  | Some r => negb (truthy (body r)) || negb (nullish (errorOf (body r)))
  | None => true
  end.

(** The reply reports success: no transport error and status 200. *)
Definition succeeded (r : Reply) : bool :=
  negb (truthy (err r))
  && match resp r with
     | Some rs => statusCode rs =? 200
     | None => false
     end.

(** Classification of the events of a trace. An invocation of the callback
    is an error signal when its first argument is truthy; otherwise it is
    the completion signal when its second argument is [null] and a data
    chunk (or a result) when it is not. *)
Definition isNetwork (e : Event) : bool :=
  match e with
  | EvRequest _ | EvProbe _ | EvStream _ => true
  | _ => false
  end.

Definition isErrorSignal (e : Event) : bool :=
  match e with
  | Deliver err _ => truthy err
  | _ => false
  end.

Definition isResult (e : Event) : bool :=
  match e with
  | Deliver err _ => negb (truthy err)
  | _ => false
  end.

Definition isCompletionSignal (e : Event) : bool :=
  match e with
  | Deliver err JNull => negb (truthy err)
  | _ => false
  end.

Definition isDataChunk (e : Event) : bool :=
  match e with
  | Deliver err JNull => false
  | Deliver err _ => negb (truthy err)
  | _ => false
  end.

(** No event satisfying [Q] occurs after an event satisfying [P]. *)
Fixpoint neverAfter (P Q : Event -> bool) (t : Trace) : bool :=
  match t with
  | [] => true
  | e :: t' => (negb (P e) || forallb (fun x => negb (Q x)) t') && neverAfter P Q t'
  end.

(** What the provider relies on from the stream of [request(url)]:
    ['response'] is emitted at most once and not after ['end'], no ['data']
    follows an ['error'], no ['error'] follows ['end']. *)
Fixpoint followsStreamContract (responded errored ended : bool)
    (events : list StreamEvent) : bool :=
  match events with
  | [] => true
  | SResponse _ :: rest =>
      negb responded && negb ended && followsStreamContract true errored ended rest
  | SData _ :: rest =>
      negb errored && followsStreamContract responded errored ended rest
  | SEnd :: rest => followsStreamContract responded errored true rest
  | SError _ :: rest =>
      negb ended && followsStreamContract responded true ended rest
  end.

(** A failure is swallowed into an unknown size: no error signal, and one
    invocation of the callback without error and without size. *)
Definition swallowedIntoUnknownSize (t : Trace) : Prop :=
  existsb isErrorSignal t = false /\ In (Deliver JUndefined JUndefined) t.

Definition thumbnailError : JsVal := JError "call to thumbnail is not implemented".

Definition sizeIsNull (item : JsVal) : Prop := get item "size" = Ok JNull.

(** ** Fixtures *)

Module Fixture.

Definition albums : JsVal :=
  JObj [("data", JArr [JObj [("id", JStr "a1"); ("name", JStr "Holidays")];
                       JObj [("id", JStr "a2"); ("name", JStr "Family")]])].

Definition unsupportedGet : JsVal :=
  JObj [("error", JObj [("message", JStr "Unsupported get request"); ("code", JNum 100)])].

Definition unknownError : JsVal :=
  JObj [("error", JObj [("message", JStr "An unknown error has occurred.");
                        ("code", JNum 1)])].

(** An adapter reading the [data] envelope and the [id] and [name] members. *)
Definition member (p : string) (v : JsVal) : JsVal :=
  match get v p with
  | Ok x => x
  | Throw => JUndefined
  end.

Definition adapter : Adapter :=
  mkAdapter (member "data") (fun _ => JBool true) (fun _ => JNull) (member "name")
    (fun _ => JNull) (member "id") (fun _ => JNull) (member "id") (fun _ => JNull)
    (fun _ _ _ => JNull).

Definition params : Params := mkParams None "p1" "T" None.

(** The listing succeeds; the identity lookup is answered with [identity]. *)
Definition clientWith (identity : Reply) (rq : Request) : Reply :=
  if String.eqb (url rq) "me" then identity
  else mkReply JNull (Some (mkResponse 200 albums)) albums.

Definition identityDown : Reply :=
  mkReply JNull (Some (mkResponse 500 unknownError)) unknownError.

(** The identity endpoint answers 500 with a page that is not JSON. *)
Definition identityDownHtml : Reply :=
  mkReply JNull (Some (mkResponse 500 (JStr "<html>Sorry, something went wrong.</html>")))
    (JStr "<html>Sorry, something went wrong.</html>").

Definition identityOk : Reply :=
  mkReply JNull (Some (mkResponse 200 (JObj [("email", JStr "user@example.com")])))
    (JObj [("email", JStr "user@example.com")]).

Definition identityWithoutEmail : Reply :=
  mkReply JNull (Some (mkResponse 200 (JObj [("id", JStr "42")]))) (JObj [("id", JStr "42")]).

End Fixture.

Module SizeFixture.

Definition photo : JsVal :=
  JObj [("images",
         JArr [JObj [("source", JStr "https://cdn.example/p1_720.jpg"); ("width", JNum 720)];
               JObj [("source", JStr "https://cdn.example/p1_2048.jpg"); ("width", JNum 2048)];
               JObj [("source", JStr "https://cdn.example/p1_130.jpg"); ("width", JNum 130)]])].

Definition width (image : JsVal) : Z :=
  match Fixture.member "width" image with
  | JNum w => w
  | _ => 0
  end.

Definition clientUp (_ : Request) : Reply :=
  mkReply JNull (Some (mkResponse 200 photo)) photo.

(** No response was ever received for the metadata request. *)
Definition clientDown (_ : Request) : Reply :=
  mkReply (JError "ECONNRESET") None JUndefined.

Definition probeDown (_ : JsVal) : Settled := Rejected (JError "ETIMEDOUT").

Definition probeUp (_ : JsVal) : Settled := Resolved (JObj [("size", JNum 52113)]).

End SizeFixture.

Module DownloadFixture.

(** The media URL answers 403: its body and ['end'] still follow. *)
Definition denied (_ : JsVal) : list StreamEvent :=
  [SResponse (mkResponse 403 JUndefined); SData "AccessDenied"; SEnd].

(** The connection breaks in the middle of the body. *)
Definition broken (_ : JsVal) : list StreamEvent :=
  [SResponse (mkResponse 200 JUndefined); SData "JFIF"; SError "ECONNRESET"].

(** A stream that goes on emitting after it has emitted ['error']. *)
Definition dataAfterError (_ : JsVal) : list StreamEvent :=
  [SResponse (mkResponse 200 JUndefined); SData "JFIF"; SError "ECONNRESET"; SData "EOI"].

(** A stream that emits a second ['response']. *)
Definition secondResponse (_ : JsVal) : list StreamEvent :=
  [SResponse (mkResponse 403 JUndefined); SResponse (mkResponse 200 JUndefined);
   SData "JFIF"].

(** A stream that emits ['response'] after ['end']. *)
Definition responseAfterEnd (_ : JsVal) : list StreamEvent :=
  [SEnd; SResponse (mkResponse 403 JUndefined)].

(** A stream that emits ['error'] after ['end']. *)
Definition errorAfterEnd (_ : JsVal) : list StreamEvent :=
  [SResponse (mkResponse 200 JUndefined); SData "JFIF"; SEnd; SError "ECONNRESET"].

End DownloadFixture.


(** ** Counting what a call does *)

Definition isDeliver (e : Event) : bool :=
  match e with
  | Deliver _ _ => true
  | _ => false
  end.

Definition isUncaught (e : Event) : bool :=
  match e with
  | Uncaught => true
  | _ => false
  end.

Definition isClientRequest (e : Event) : bool :=
  match e with
  | EvRequest _ => true
  | _ => false
  end.

Definition isStreamOpen (e : Event) : bool :=
  match e with
  | EvStream _ => true
  | _ => false
  end.

(** Number of invocations of the caller's callback. *)
Definition deliveries (t : Trace) : nat := List.length (filter isDeliver t).

(** The callback was invoked exactly once and nothing was raised, or a
    [TypeError] escaped and the callback was never invoked. *)
Definition calledOnceOrRaised (t : Trace) : Prop :=
  (deliveries t = 1%nat /\ existsb isUncaught t = false)
  \/ (deliveries t = 0%nat /\ existsb isUncaught t = true).

Definition isResponseEvent (e : StreamEvent) : bool :=
  match e with
  | SResponse _ => true
  | _ => false
  end.

Definition revoked : JsVal := JObj [("revoked", JBool true)].

Module EdgeFixture.

Definition noImages : JsVal := JObj [("id", JStr "p1"); ("images", JArr [])].

Definition clientNoImages (_ : Request) : Reply :=
  mkReply JNull (Some (mkResponse 200 noImages)) noImages.

Definition probeNull (_ : JsVal) : Settled := Resolved JNull.

Definition clientRevoked (_ : Request) : Reply :=
  mkReply JNull (Some (mkResponse 200 (JObj [("success", JBool true)])))
    (JObj [("success", JBool true)]).

(** A 200 answer delivering two chunks. *)
Definition twoChunks (_ : JsVal) : list StreamEvent :=
  SResponse (mkResponse 200 JUndefined) :: (map SData ["JFIF"; "EOI"] ++ [SEnd])%list.

End EdgeFixture.

(** Case analysis on every scrutinee of the goal. *)
Ltac split_cases :=
  repeat match goal with
         | |- context [match ?c with _ => _ end] => destruct c eqn:?; simpl
         end.

(** * The locale pack script

    Shallow embedding of the in-memory parts of [bin/locale-packs.js]:
    [addLocaleToPack], the loop of [build] that calls it, and [test]. A
    plain object is the list of its own enumerable properties in the order
    [Object.keys] yields them, without repeated keys; property names are
    locale keys, plugin names and locale names, none of them an array
    index. *)

Module LocalePacks.

Section Objects.

Context {A : Type}.

(** [obj[k]] for an own property. *)
Fixpoint ownProp (obj : list (string * A)) (k : string) : option A :=
  match obj with
  | [] => None
  | (k', v) :: rest => if String.eqb k' k then Some v else ownProp rest k
  end.

(** [obj[k] = v]: an existing property keeps its place, a new one comes
    last. *)
Fixpoint assignProp (obj : list (string * A)) (k : string) (v : A)
    : list (string * A) :=
  match obj with
  | [] => [(k, v)]
  | (k', v') :: rest =>
      if String.eqb k' k then (k', v) :: rest else (k', v') :: assignProp rest k v
  end.

(** [delete obj[k]]. *)
Fixpoint deleteProp (obj : list (string * A)) (k : string) : list (string * A) :=
  match obj with
  | [] => []
  | (k', v') :: rest =>
      if String.eqb k' k then deleteProp rest k else (k', v') :: deleteProp rest k
  end.

End Objects.

(** [keys.includes(key)]. *)
Definition includes (keys : list string) (key : string) : bool :=
  existsb (String.eqb key) keys.

(** How a run of a function ends. *)
Inductive Outcome : Type :=
| Returned
| ThrewError (message : string)      (* throw new Error(message) *)
| ThrewTypeError                     (* raised by the engine *)
| Exited (code : Z).                 (* process.exit(code) *)

(** ** addLocaleToPack *)

(** The lines [addLocaleToPack] prints before it throws; each carries what
    the printed text interpolates. *)
Inductive PackReport : Type :=
| DuplicateKey (pluginName key : string)
| ValueInPlugin (json : option string)
| ValueInPack (json : option string)
| BlankLine.

Definition eqJson (a b : option string) : bool :=
  match a, b with
  | Some x, Some y => String.eqb x y
  | None, None => true
  | _, _ => false
  end.

Section Pack.

(** The values of locale strings, with [JSON.stringify] ([None] is
    [undefined]); the names every object inherits from [Object.prototype],
    with [JSON.stringify] of the inherited member. *)
Context {Value : Type}.
Variable stringify : Value -> option string.
Variable inherited : string -> bool.
Variable inheritedJson : string -> option string.

(** [key in localePack]. *)
Definition inPack (localePack : list (string * Value)) (key : string) : bool :=
  match ownProp localePack key with
  | Some _ => true
  | None => inherited key
  end.

(** [JSON.stringify (localePack[key])]. *)
Definition jsonInPack (localePack : list (string * Value)) (key : string)
    : option string :=
  match ownProp localePack key with
  | Some v => stringify v
  | None => if inherited key then inheritedJson key else None
  end.

(** [addLocaleToPack (localePack, plugin, pluginName)], lines 119-135, over
    the own properties [localeStrings] of [plugin.defaultLocale.strings].
    The pack is updated in place, so the pack at the moment of a throw is
    part of the result. The assignment makes [key] an own property (as it
    does for every key but [__proto__]). *)
Fixpoint addLocaleToPack (localePack localeStrings : list (string * Value))
    (pluginName : string) : list (string * Value) * list PackReport * Outcome :=
  match localeStrings with
  | [] => (localePack, [], Returned)
  | (key, value) :: rest =>
      let valueInPlugin := stringify value in
      let valueInPack := jsonInPack localePack key in
      if inPack localePack key && negb (eqJson valueInPlugin valueInPack) then
        (localePack,
         [DuplicateKey pluginName key; ValueInPlugin valueInPlugin;
          ValueInPack valueInPack; BlankLine],
         ThrewError ("Duplicate locale key: '" ++ key ++ "'"))
      else addLocaleToPack (assignProp localePack key value) rest pluginName
  end.

(** The first loop of [build], lines 175-180: every plugin is added to the
    pack in turn; a throw ends the loop. *)
Fixpoint addPlugins (localePack : list (string * Value))
    (plugins : list (string * list (string * Value)))
    : list (string * Value) * list PackReport * Outcome :=
  match plugins with
  | [] => (localePack, [], Returned)
  | (pluginName, localeStrings) :: rest =>
      match addLocaleToPack localePack localeStrings pluginName with
      | (localePack', _, Returned) => addPlugins localePack' rest
      | thrown => thrown
      end
  end.

End Pack.

(** ** test *)

(** A locale string: a text, or an object of plural forms. *)
Inductive LocaleValue : Type :=
| Text (s : string)
| Plural (forms : list (string * string)).

(** One file of [locales/src/*.js]: its base name and the own properties
    of the [strings] it exports. *)
Record LocaleFile : Type := mkLocaleFile {
  localeName : string;
  strings : list (string * LocaleValue)
}.

(** [String (value)], the text that interpolating [value] into a message
    gives: an object of plural forms reads [[object Object]]. *)
Definition valueText (value : option LocaleValue) : string :=
  match value with
  | Some (Text s) => s
  | Some (Plural _) => "[object Object]"
  | None => "undefined"
  end.

(** A pushed warning, by what its text interpolates: the follower, the key
    and the text of [leadingValues[key]]. *)
Inductive Warning : Type :=
| MissingString (followerName key value : string).

Inductive Fatal : Type :=
| ExcessString (followerName key : string).

(** Calls of [console.error] and [console.log]; the joined warnings and
    fatals are kept as lists. *)
Inductive Console : Type :=
| ErrLine (text : string)
| ErrWarnings (warnings : list Warning)
| ErrFatals (fatals : list Fatal)
| LogAllMatching
| LogLine (text : string).

Definition leadingLocaleName : string := "en_US".

(** The [forEach] over the files, lines 223-231: [followerValues] and
    [followerLocales]. *)
Definition readValues (files : list LocaleFile)
    : list (string * list (string * LocaleValue)) :=
  fold_left (fun values f => assignProp values (localeName f) (strings f)) files [].

Definition readLocales (files : list LocaleFile) : list (string * list string) :=
  fold_left (fun locales f => assignProp locales (localeName f) (map fst (strings f)))
    files [].

Definition missingIn (leadingLocale followerLocale : list string) : list string :=
  filter (fun key => negb (includes followerLocale key)) leadingLocale.

Definition excessIn (leadingLocale followerLocale : list string) : list string :=
  filter (fun key => negb (includes leadingLocale key)) followerLocale.

(** The comparison loop, lines 241-259: [leadingLocale] is [undefined] when
    there is no [en_US] file, and then the first [filter] raises. The first
    plural form that lines 248-252 put in [value] is not used by the
    message, which interpolates [leadingValues[key]] itself. *)
Fixpoint compareLocales (leadingLocale : option (list string))
    (leadingValues : list (string * LocaleValue))
    (followers : list (string * list string)) (warnings : list Warning)
    (fatals : list Fatal) : option (list Warning * list Fatal) :=
  match followers with
  | [] => Some (warnings, fatals)
  | (followerName, followerLocale) :: rest =>
      match leadingLocale with
      | None => None
      | Some leading =>
          let missing := missingIn leading followerLocale in
          let excess := excessIn leading followerLocale in
          compareLocales leadingLocale leadingValues rest
            (warnings ++ map (fun key =>
                                MissingString followerName key
                                  (valueText (ownProp leadingValues key)))
                           missing)
            (fatals ++ map (ExcessString followerName) excess)
      end
  end.

Definition nonEmpty {A} (l : list A) : bool :=
  match l with
  | [] => false
  | _ => true
  end.

(** [test ()], lines 217-277. *)
Definition test (files : list LocaleFile) : list Console * Outcome :=
  let followerValues := readValues files in
  let followerLocales := readLocales files in
  let leadingLocale := ownProp followerLocales leadingLocaleName in
  let leadingValues := match ownProp followerValues leadingLocaleName with
                       | Some values => values
                       | None => []
                       end in
  let followerLocales := deleteProp followerLocales leadingLocaleName in
  match compareLocales leadingLocale leadingValues followerLocales [] [] with
  | None => ([], ThrewTypeError)
  | Some (warnings, fatals) =>
      let warned :=
        if nonEmpty warnings
        then [ErrLine "--> Locale warnings: "; ErrWarnings warnings; ErrLine ""]
        else [] in
      if nonEmpty fatals then
        ((warned ++ [ErrLine "--> Locale fatal warnings: "; ErrFatals fatals;
                     ErrLine ""])%list,
         Exited 1)
      else if negb (nonEmpty warnings) then
        ((warned ++ [LogAllMatching; LogLine ""])%list, Returned)
      else (warned, Returned)
  end.

End LocalePacks.

Section PackVocabulary.

Context {Value : Type}.
Variable stringify : Value -> option string.
Variable inherited : string -> bool.
Variable inheritedJson : string -> option string.

(** The pack already has [key], with another JSON text than [value]. *)
Definition conflicts (localePack : list (string * Value)) (key : string)
    (value : Value) : bool :=
  LocalePacks.inPack inherited localePack key
  && negb (LocalePacks.eqJson (stringify value)
             (LocalePacks.jsonInPack stringify inherited inheritedJson localePack key)).

(** The pack has [key] as an own property whose JSON text is that of
    [value]. *)
Definition agrees (localePack : list (string * Value)) (key : string)
    (value : Value) : Prop :=
  exists v, LocalePacks.ownProp localePack key = Some v
            /\ stringify v = stringify value.

End PackVocabulary.

Module PackFixture.

Definition json (s : string) : option string := Some ("'" ++ s ++ "'").

Definition inherited (k : string) : bool :=
  String.eqb k "constructor" || String.eqb k "toString".

Definition inheritedJson (_ : string) : option string := None.

Definition core : list (string * string) :=
  [("cancel", "Cancel"); ("done", "Done"); ("retry", "Retry")].

Definition dashboard : list (string * string) :=
  [("done", "Done"); ("back", "Back")].

Definition statusBar : list (string * string) :=
  [("pause", "Pause"); ("retry", "Retry upload"); ("resume", "Resume")].

End PackFixture.

(** ** Vocabulary for the comparison of locales *)

Definition keysOf (f : LocalePacks.LocaleFile) : list string :=
  map fst (LocalePacks.strings f).

(** The files other than [en_US], in the order of the directory. *)
Definition followersOf (files : list LocalePacks.LocaleFile)
    : list LocalePacks.LocaleFile :=
  filter (fun f => negb (String.eqb (LocalePacks.localeName f)
                           LocalePacks.leadingLocaleName)) files.

Definition warningsOf (leading : LocalePacks.LocaleFile)
    (followers : list LocalePacks.LocaleFile) : list LocalePacks.Warning :=
  flat_map (fun f =>
              map (fun key =>
                     LocalePacks.MissingString (LocalePacks.localeName f) key
                       (LocalePacks.valueText
                          (LocalePacks.ownProp (LocalePacks.strings leading) key)))
                (LocalePacks.missingIn (keysOf leading) (keysOf f)))
    followers.

Definition fatalsOf (leading : LocalePacks.LocaleFile)
    (followers : list LocalePacks.LocaleFile) : list LocalePacks.Fatal :=
  flat_map (fun f =>
              map (LocalePacks.ExcessString (LocalePacks.localeName f))
                (LocalePacks.excessIn (keysOf leading) (keysOf f)))
    followers.

(** Some follower has a key that [en_US] does not have. *)
Definition someExcess (leading : LocalePacks.LocaleFile)
    (files : list LocalePacks.LocaleFile) : Prop :=
  exists f key,
    In f files
    /\ LocalePacks.localeName f <> LocalePacks.leadingLocaleName
    /\ In key (keysOf f)
    /\ ~ In key (keysOf leading).

(** Some follower lacks a key that [en_US] has. *)
Definition someMissing (leading : LocalePacks.LocaleFile)
    (files : list LocalePacks.LocaleFile) : Prop :=
  exists f key,
    In f files
    /\ LocalePacks.localeName f <> LocalePacks.leadingLocaleName
    /\ In key (keysOf leading)
    /\ ~ In key (keysOf f).

Module LocaleFixture.

Definition en_US : LocalePacks.LocaleFile :=
  LocalePacks.mkLocaleFile "en_US"
    [("cancel", LocalePacks.Text "Cancel");
     ("xFilesSelected",
      LocalePacks.Plural [("0", "%{smart_count} file selected");
                          ("1", "%{smart_count} files selected")])].

Definition de_DE : LocalePacks.LocaleFile :=
  LocalePacks.mkLocaleFile "de_DE" [("cancel", LocalePacks.Text "Abbrechen")].

Definition fr_FR : LocalePacks.LocaleFile :=
  LocalePacks.mkLocaleFile "fr_FR"
    [("cancel", LocalePacks.Text "Annuler");
     ("xFilesSelected", LocalePacks.Plural [("0", "%{smart_count} fichier")]);
     ("dropHere", LocalePacks.Text "Deposer ici")].

Definition it_IT : LocalePacks.LocaleFile :=
  LocalePacks.mkLocaleFile "it_IT"
    [("xFilesSelected", LocalePacks.Plural [("0", "%{smart_count} file")])].

Definition nl_NL : LocalePacks.LocaleFile :=
  LocalePacks.mkLocaleFile "nl_NL"
    [("xFilesSelected", LocalePacks.Plural [("0", "%{smart_count} bestand")]);
     ("cancel", LocalePacks.Text "Annuleren")].

End LocaleFixture.
(** ** The error classifier *)

Lemma get_errorOf (body : JsVal) :
  truthy body = true -> get body "error" = Ok (errorOf body).
Proof.
  destruct body; simpl; try discriminate; try reflexivity.
Qed.

Lemma get_messageOf (e : JsVal) :
  nullish e = false -> get e "message" = Ok (messageOf e).
Proof.
  destruct e; simpl; try discriminate; reflexivity.
Qed.

Lemma get_code_marker (e : JsVal) (c : JsVal) :
  get e "code" = Ok c ->
  strict_eq_num c 190
  = match e with
    | JObj fields => strict_eq_num (lookup fields "code") 190
    | _ => false
    end.
Proof.
  destruct e; simpl; intros H; inversion H; subst; try reflexivity.
Qed.

(** A present body without an [error] member makes the classifier raise. *)
Lemma _error_raises (err : JsVal) (r : Response) :
  truthy (body r) = true -> nullish (errorOf (body r)) = true ->
  Facebook._error err (Some r) = Throw.
Proof.
  intros Hb He. unfold Facebook._error.
  rewrite Hb, (get_errorOf _ Hb). simpl.
  destruct (errorOf (body r)); simpl in *; try discriminate; reflexivity.
Qed.

(** C1: on the response [{ statusCode: 500, body: "Internal Server Error" }]
    (a body that is present but is not JSON, so has no [error] member) the
    classifier does not return a value: reading [resp.body.error.code]
    raises a [TypeError]. So the classifier is not total. *)
Theorem C1_error_raises_on_body_without_error :
  Facebook._error JNull (Some (mkResponse 500 (JStr "Internal Server Error"))) = Throw
  /\ ~ (forall err resp, exists e, Facebook._error err resp = Ok e).
Proof.
  split; [reflexivity|].
  intros H.
  destruct (H JNull (Some (mkResponse 500 (JStr "Internal Server Error")))) as [e He].
  discriminate He.
Qed.

(** C2: whenever the body of the response carries the invalid-token marker
    (error code 190) the classifier returns a [ProviderAuthError], whatever
    the transport error and whatever the HTTP status code. *)
Theorem C2_auth_marker_yields_auth_error
    (err : JsVal) (status : Z) (body : JsVal) :
  carriesInvalidTokenMarker body = true ->
  Facebook._error err (Some (mkResponse status body)) = Ok JProviderAuthError.
Proof.
  unfold carriesInvalidTokenMarker. intros H.
  destruct body; simpl in H; try discriminate.
  unfold Facebook._error; simpl.
  destruct (lookup fields "error"); try discriminate.
  simpl. rewrite H. reflexivity.
Qed.

Lemma C2_auth_marker_witness :
  Facebook._error (JError "ignored")
    (Some (mkResponse 400
       (JObj [("error", JObj [("message", JStr "Error validating access token");
                              ("type", JStr "OAuthException");
                              ("code", JNum 190)])])))
  = Ok JProviderAuthError.
Proof.
  apply C2_auth_marker_yields_auth_error. reflexivity.
Defined.

(** C3, as stated, fails: for the body [{ error: { code: 100 } }] the
    error object has no message, yet the classifier does not produce the
    fallback message; the message of the [ProviderApiError] is
    [undefined]. *)
Lemma C3_stated_classification_fails :
  ~ (forall err resp,
        hasAuthMarker resp = false ->
        Facebook._error err resp = Ok (statedClassification err resp)).
Proof.
  intros H.
  specialize (H JNull
    (Some (mkResponse 400 (JObj [("error", JObj [("code", JNum 100)])])))
    eq_refl).
  vm_compute in H. discriminate H.
Qed.

(** C3, amended: for every input without the auth marker whose response has
    no body or has a body with an [error] member, the classifier returns,
    when a response exists, a [ProviderApiError] with the status code and
    with the [message] member of the body's error when body and error are
    truthy ([undefined] if the error has no message), the fallback message
    otherwise; when no response exists it returns the transport error
    unchanged. *)
Theorem C3_classification_without_marker
    (err : JsVal) (resp : option Response) :
  hasAuthMarker resp = false ->
  bodyAbsentOrHasError resp = true ->
  Facebook._error err resp = Ok (classification err resp).
Proof.
  destruct resp as [r|]; [|reflexivity].
  unfold hasAuthMarker, carriesInvalidTokenMarker, bodyAbsentOrHasError.
  unfold Facebook._error, classification.
  intros Hm Hd.
  destruct (truthy (body r)) eqn:Hb; simpl in *; [|reflexivity].
  rewrite (get_errorOf _ Hb). simpl.
  destruct (get (errorOf (body r)) "code") as [c|] eqn:Hc.
  - simpl. rewrite (get_code_marker _ _ Hc).
    destruct (truthy (errorOf (body r))) eqn:He.
    + rewrite get_messageOf by (apply negb_true_iff; exact Hd).
      destruct (errorOf (body r)); simpl in *; try rewrite Hm; reflexivity.
    + destruct (errorOf (body r)); simpl in *; try rewrite Hm; reflexivity.
  - destruct (errorOf (body r)); simpl in *; discriminate.
Qed.

Lemma C3_classification_witness :
  Facebook._error JNull (Some (mkResponse 404 Fixture.unsupportedGet))
  = Ok (JProviderApiError (JStr "Unsupported get request") 404)
  /\ Facebook._error JNull (Some (mkResponse 502 JUndefined))
     = Ok (JProviderApiError (JStr "request to facebook returned 502") 502)
  /\ Facebook._error (JError "ETIMEDOUT") None = Ok (JError "ETIMEDOUT").
Proof.
  split; [|split].
  - apply (C3_classification_without_marker JNull
             (Some (mkResponse 404 Fixture.unsupportedGet))); reflexivity.
  - apply (C3_classification_without_marker JNull (Some (mkResponse 502 JUndefined)));
      reflexivity.
  - apply (C3_classification_without_marker (JError "ETIMEDOUT") None); reflexivity.
Defined.

(** ** Requests that fail *)

Lemma failed_succeeded (r : Reply) :
  Facebook.failed r = Ok false <-> succeeded r = true.
Proof.
  unfold Facebook.failed, succeeded.
  destruct (truthy (err r)); simpl.
  - split; discriminate.
  - destruct (resp r) as [rs|]; [|split; discriminate].
    destruct (statusCode rs =? 200); simpl; split; congruence.
Qed.

Lemma succeeded_false_failed (r : Reply) :
  succeeded r = false -> Facebook.failed r = Ok true \/ Facebook.failed r = Throw.
Proof.
  unfold Facebook.failed, succeeded.
  destruct (truthy (err r)); simpl; [auto|].
  destruct (resp r) as [rs|]; [|auto].
  destruct (statusCode rs =? 200); simpl; [discriminate|auto].
Qed.

(** The classified error of a failed request is never falsy. *)
Lemma classified_truthy (r : Reply) (e : JsVal) :
  Facebook.failed r = Ok true ->
  Facebook._error (err r) (resp r) = Ok e ->
  truthy e = true.
Proof.
  unfold Facebook.failed, Facebook._error.
  destruct (resp r) as [rs|].
  - intros _.
    destruct (truthy (body rs)).
    + destruct (get (body rs) "error") as [x|]; simpl; [|discriminate].
      destruct (get x "code") as [c|]; simpl; [|discriminate].
      destruct (strict_eq_num c 190).
      * intros H; inversion H; reflexivity.
      * destruct (truthy x); [destruct (get x "message"); simpl|simpl];
          intros H; inversion H; reflexivity.
    + simpl. intros H; inversion H; reflexivity.
  - destruct (truthy (err r)) eqn:He; [|discriminate].
    intros _ H; inversion H; subst; exact He.
Qed.

(** ** list *)

Section ListTheorems.

Variable client : Request -> Reply.
Variable adapter : Adapter.
Variable p : Params.

(** A listing that does not succeed ends the call: no further request is
    made and no result is delivered. *)
Lemma list_listing_not_succeeded :
  succeeded (client (Facebook.listRequest p)) = false ->
  exists rest,
    Facebook.list client adapter p = EvRequest (Facebook.listRequest p) :: rest
    /\ existsb isNetwork rest = false
    /\ existsb isResult rest = false.
Proof.
  intros Hs. unfold Facebook.list.
  destruct (succeeded_false_failed _ Hs) as [Hf|Hf]; rewrite Hf; simpl.
  - destruct (Facebook._error _ _) as [e|] eqn:He; simpl.
    + eexists; split; [reflexivity|]. simpl.
      rewrite (classified_truthy _ _ Hf He). auto.
    + eexists; split; [reflexivity|]. auto.
  - eexists; split; [reflexivity|]. auto.
Qed.

Lemma list_listing_succeeded :
  succeeded (client (Facebook.listRequest p)) = true ->
  Facebook.list client adapter p
  = EvRequest (Facebook.listRequest p) ::
    Facebook._getUsername client (token p) (fun err username =>
      if truthy err then [Deliver err JUndefined]
      else try (Facebook.adaptData adapter (rbody (client (Facebook.listRequest p)))
                  username (directory p) (Facebook.defaultQuery (query p)))
             (fun data => [Deliver JNull data])).
Proof.
  intros Hs. unfold Facebook.list.
  apply failed_succeeded in Hs. rewrite Hs. reflexivity.
Qed.

Lemma list_identity_succeeded :
  succeeded (client (Facebook.listRequest p)) = true ->
  succeeded (client (Facebook.usernameRequest (token p))) = true ->
  Facebook.list client adapter p
  = EvRequest (Facebook.listRequest p) ::
    EvRequest (Facebook.usernameRequest (token p)) ::
    try (get (rbody (client (Facebook.usernameRequest (token p)))) "email")
      (fun email =>
         try (Facebook.adaptData adapter (rbody (client (Facebook.listRequest p)))
                email (directory p) (Facebook.defaultQuery (query p)))
           (fun data => [Deliver JNull data])).
Proof.
  intros Hs Hi. rewrite (list_listing_succeeded Hs).
  unfold Facebook._getUsername.
  apply failed_succeeded in Hi. rewrite Hi. simpl.
  destruct (get _ "email"); reflexivity.
Qed.

End ListTheorems.

(** The trace of [list] starts with the listing request; the identity
    request is issued only when the listing reply reports success, and then
    right after it, no other request being made; when the identity lookup
    fails no result is delivered, and the error the classifier returns for
    that second reply is what [done] receives. *)
Lemma list_identity_lookup_after_listing
    (client : Request -> Reply) (adapter : Adapter) (p : Params) :
  let listing := client (Facebook.listRequest p) in
  let identity := client (Facebook.usernameRequest (token p)) in
  exists rest,
    Facebook.list client adapter p = EvRequest (Facebook.listRequest p) :: rest
    /\ (succeeded listing = false -> existsb isNetwork rest = false)
    /\ (succeeded listing = true ->
        exists rest',
          rest = EvRequest (Facebook.usernameRequest (token p)) :: rest'
          /\ existsb isNetwork rest' = false
          /\ (Facebook.failed identity = Ok true ->
              existsb isResult rest' = false
              /\ (forall e, Facebook._error (err identity) (resp identity) = Ok e ->
                    rest' = [EvLog e "provider.facebook.user.error";
                             Deliver e JUndefined])
              /\ (Facebook._error (err identity) (resp identity) = Throw ->
                    rest' = [Uncaught]))).
Proof.
  intros listing identity.
  destruct (succeeded listing) eqn:Hs.
  - eexists. split; [apply (list_listing_succeeded client adapter p Hs)|].
    split; [discriminate|]. intros _.
    unfold Facebook._getUsername. fold identity.
    eexists. split; [reflexivity|].
    destruct (Facebook.failed identity) as [[|]|] eqn:Hf; simpl.
    + destruct (Facebook._error (err identity) (resp identity)) as [e|] eqn:He; simpl.
      * rewrite (classified_truthy _ _ Hf He). simpl.
        rewrite (classified_truthy _ _ Hf He). simpl.
        repeat split; auto; try discriminate.
        intros e' He'; inversion He'; reflexivity.
      * repeat split; auto. discriminate.
    + split; [|discriminate].
      destruct (get (rbody identity) "email"); simpl; [|reflexivity].
      destruct (Facebook.adaptData _ _ _ _ _); reflexivity.
    + split; [reflexivity|discriminate].
  - destruct (list_listing_not_succeeded client adapter p Hs) as (rest & Heq & Hn & _).
    exists rest. split; [exact Heq|]. split; [auto|discriminate].
Qed.

Example list_identity_down :
  Facebook.list (Fixture.clientWith Fixture.identityDown) Fixture.adapter Fixture.params
  = [ EvRequest (Facebook.listRequest Fixture.params);
      EvRequest (Facebook.usernameRequest "T");
      EvLog (JProviderApiError (JStr "An unknown error has occurred.") 500)
        "provider.facebook.user.error";
      Deliver (JProviderApiError (JStr "An unknown error has occurred.") 500) JUndefined ].
Proof.
  destruct (list_identity_lookup_after_listing
              (Fixture.clientWith Fixture.identityDown) Fixture.adapter Fixture.params)
    as (rest & Heq & _ & Hs).
  destruct (Hs eq_refl) as (rest' & Hrest & _ & Hf).
  destruct (Hf eq_refl) as (_ & He & _).
  rewrite Heq, Hrest, (He _ eq_refl). reflexivity.
Qed.

(** C4: when the listing succeeds and the identity endpoint answers 500
    with a body that is not JSON, [list] issues the listing request, then
    the identity request, and then raises: [done] receives neither the
    classified error of the identity lookup nor a result. *)
Theorem C4_identity_failure_not_delivered :
  Facebook.list (Fixture.clientWith Fixture.identityDownHtml) Fixture.adapter
    Fixture.params
  = [ EvRequest (Facebook.listRequest Fixture.params);
      EvRequest (Facebook.usernameRequest "T");
      Uncaught ]
  /\ Facebook.failed Fixture.identityDownHtml = Ok true
  /\ forall err value,
       ~ In (Deliver err value)
            (Facebook.list (Fixture.clientWith Fixture.identityDownHtml) Fixture.adapter
               Fixture.params).
Proof.
  split; [reflexivity|]. split; [reflexivity|].
  intros e v [H|[H|[H|[]]]]; discriminate H.
Qed.

(** C10: whenever [list] delivers a result, the identity request asked for
    the [email] field only and the [username] of the result is the [email]
    member of the identity reply's body. Whenever the listing and the
    identity lookup succeed, [list] delivers a result, whose [username] is
    that [email] member, whatever it is; when the body is an object without
    [email], the result is still delivered and its [username] is
    [undefined]. *)
Theorem C10_username_is_identity_email
    (client : Request -> Reply) (adapter : Adapter) (p : Params) :
  let listing := client (Facebook.listRequest p) in
  let identity := client (mkRequest GET "me" [("fields", "email")] (token p)) in
  (forall err data,
      In (Deliver err data) (Facebook.list client adapter p) ->
      truthy err = false ->
      In (EvRequest (mkRequest GET "me" [("fields", "email")] (token p)))
         (Facebook.list client adapter p)
      /\ exists email,
           get (rbody identity) "email" = Ok email /\ get data "username" = Ok email)
  /\ (forall email raw,
        succeeded listing = true ->
        succeeded identity = true ->
        get (rbody identity) "email" = Ok email ->
        getItemSubList adapter (rbody listing) = JArr raw ->
        exists data,
          Facebook.list client adapter p
          = [ EvRequest (Facebook.listRequest p);
              EvRequest (mkRequest GET "me" [("fields", "email")] (token p));
              Deliver JNull data ]
          /\ get data "username" = Ok email)
  /\ (forall fields raw,
        succeeded listing = true ->
        succeeded identity = true ->
        rbody identity = JObj fields ->
        lookup fields "email" = JUndefined ->
        getItemSubList adapter (rbody listing) = JArr raw ->
        exists data,
          Facebook.list client adapter p
          = [ EvRequest (Facebook.listRequest p);
              EvRequest (mkRequest GET "me" [("fields", "email")] (token p));
              Deliver JNull data ]
          /\ get data "username" = Ok JUndefined).
Proof.
  intros listing identity.
  assert (forall email raw,
             succeeded listing = true ->
             succeeded identity = true ->
             get (rbody identity) "email" = Ok email ->
             getItemSubList adapter (rbody listing) = JArr raw ->
             exists data,
               Facebook.list client adapter p
               = [ EvRequest (Facebook.listRequest p);
                   EvRequest (mkRequest GET "me" [("fields", "email")] (token p));
                   Deliver JNull data ]
               /\ get data "username" = Ok email) as Hdelivered.
  { intros email raw Hs Hi Hm Hraw.
    rewrite (list_identity_succeeded client adapter p Hs Hi).
    unfold Facebook.usernameRequest. fold identity. fold listing.
    rewrite Hm. simpl.
    unfold Facebook.adaptData. rewrite Hraw. simpl.
    eexists. split; reflexivity. }
  split; [|split; [exact Hdelivered|]].
  - intros e data Hin He.
    destruct (succeeded listing) eqn:Hs.
    + rewrite (list_listing_succeeded client adapter p Hs) in *.
      unfold Facebook._getUsername, Facebook.usernameRequest in *.
      fold identity in Hin. fold listing in Hin.
      split; [right; left; reflexivity|].
      destruct Hin as [Hin|[Hin|Hin]]; try discriminate.
      destruct (Facebook.failed identity) as [[|]|] eqn:Hf; simpl in Hin.
      * destruct (Facebook._error (err identity) (resp identity)) as [c|] eqn:Hc;
          simpl in Hin.
        -- rewrite (classified_truthy _ _ Hf Hc) in Hin.
           destruct Hin as [Hin|[Hin|[]]]; try discriminate.
           inversion Hin; subst. rewrite (classified_truthy _ _ Hf Hc) in He.
           discriminate.
        -- destruct Hin as [Hin|[]]; discriminate.
      * destruct (get (rbody identity) "email") as [email|] eqn:Hm; simpl in Hin.
        -- unfold Facebook.adaptData in Hin.
           destruct (getItemSubList adapter (rbody listing)); simpl in Hin;
             try (destruct Hin as [Hin|[]]; discriminate).
           destruct Hin as [Hin|[]]. inversion Hin; subst.
           exists email. split; reflexivity.
        -- destruct Hin as [Hin|[]]; discriminate.
      * destruct Hin as [Hin|[]]; discriminate.
    + destruct (list_listing_not_succeeded client adapter p Hs) as (rest & Heq & _ & Hr).
      rewrite Heq in Hin. destruct Hin as [Hin|Hin]; [discriminate|].
      assert (existsb isResult rest = true) as Hex.
      { apply existsb_exists. exists (Deliver e data). split; [exact Hin|].
        simpl. rewrite He. reflexivity. }
      rewrite Hr in Hex. discriminate.
  - intros fields raw Hs Hi Hb Hl Hraw.
    apply (Hdelivered JUndefined raw Hs Hi); [|exact Hraw].
    rewrite Hb. simpl. rewrite Hl. reflexivity.
Qed.

Lemma C10_username_witness :
  (exists data,
      Facebook.list (Fixture.clientWith Fixture.identityOk) Fixture.adapter Fixture.params
      = [ EvRequest (Facebook.listRequest Fixture.params);
          EvRequest (mkRequest GET "me" [("fields", "email")] "T");
          Deliver JNull data ]
      /\ get data "username" = Ok (JStr "user@example.com"))
  /\ exists data,
       Facebook.list (Fixture.clientWith Fixture.identityWithoutEmail)
         Fixture.adapter Fixture.params
       = [ EvRequest (Facebook.listRequest Fixture.params);
           EvRequest (mkRequest GET "me" [("fields", "email")] "T");
           Deliver JNull data ]
       /\ get data "username" = Ok JUndefined
       /\ exists email,
            get (rbody Fixture.identityWithoutEmail) "email" = Ok email
            /\ get data "username" = Ok email.
Proof.
  split.
  - destruct (C10_username_is_identity_email (Fixture.clientWith Fixture.identityOk)
                Fixture.adapter Fixture.params) as (_ & H2 & _).
    exact (H2 (JStr "user@example.com") _ eq_refl eq_refl eq_refl eq_refl).
  - destruct (C10_username_is_identity_email
                (Fixture.clientWith Fixture.identityWithoutEmail)
                Fixture.adapter Fixture.params) as (H1 & _ & H3).
    destruct (H3 [("id", JStr "42")] _ eq_refl eq_refl eq_refl eq_refl eq_refl)
      as (data & Ht & Hu).
    exists data. split; [exact Ht|]. split; [exact Hu|].
    apply (H1 JNull data); [|reflexivity].
    rewrite Ht. right; right; left; reflexivity.
Defined.

(** ** thumbnail *)

(** C7: whatever its arguments, [thumbnail] logs and hands to [done] the
    error "call to thumbnail is not implemented", and nothing else: no
    request, probe or stream is started. *)
Theorem C7_thumbnail_not_implemented (p : Params) :
  Facebook.thumbnail p
  = [ EvLog thumbnailError "provider.facebook.thumbnail.error";
      Deliver thumbnailError JUndefined ]
  /\ existsb isNetwork (Facebook.thumbnail p) = false
  /\ existsb isErrorSignal (Facebook.thumbnail p) = true
  /\ existsb isResult (Facebook.thumbnail p) = false.
Proof. repeat split. Qed.

(** ** adaptData *)

Lemma adaptItem_size (adapter : Adapter) (item : JsVal) :
  sizeIsNull (Facebook.adaptItem adapter item).
Proof. reflexivity. Qed.

(** C9: for every raw response whose item list is an array, [adaptData]
    returns a result with one item per raw item, and the [size] of every
    one of them is [null], whatever the payload, username, directory and
    query. *)
Theorem C9_adaptData_size_null
    (adapter : Adapter) (res username : JsVal) (directory : option string)
    (currentQuery : Query) (raw : list JsVal) :
  getItemSubList adapter res = JArr raw ->
  exists data items,
    Facebook.adaptData adapter res username directory currentQuery = Ok data
    /\ get data "items" = Ok (JArr items)
    /\ List.length items = List.length raw
    /\ Forall sizeIsNull items.
Proof.
  intros Hraw. unfold Facebook.adaptData. rewrite Hraw.
  eexists. exists (map (Facebook.adaptItem adapter) raw).
  split; [reflexivity|]. split; [reflexivity|].
  split; [apply length_map|].
  apply Forall_forall. intros it Hin.
  apply in_map_iff in Hin. destruct Hin as (x & <- & _).
  apply adaptItem_size.
Qed.

Lemma C9_adaptData_witness :
  exists data items,
    Facebook.adaptData Fixture.adapter Fixture.albums (JStr "user@example.com") None
      (mkQuery None) = Ok data
    /\ get data "items" = Ok (JArr items)
    /\ List.length items = 2%nat
    /\ Forall sizeIsNull items.
Proof.
  apply (C9_adaptData_size_null Fixture.adapter Fixture.albums (JStr "user@example.com")
           None (mkQuery None) _ eq_refl).
Defined.

(** ** size *)

(** C5, as stated, fails: when the metadata request itself fails (here no
    response was received) [size] hands the error to [done] instead of
    completing with an unknown size. *)
Lemma C5_metadata_failure_not_swallowed :
  Facebook.size SizeFixture.clientDown SizeFixture.probeDown SizeFixture.width Fixture.params
  = [ EvRequest (Facebook.itemRequest Fixture.params);
      EvLog (JError "ECONNRESET") "provider.facebook.size.error";
      Deliver (JError "ECONNRESET") JUndefined ]
  /\ ~ swallowedIntoUnknownSize
         (Facebook.size SizeFixture.clientDown SizeFixture.probeDown SizeFixture.width
            Fixture.params).
Proof.
  split; [reflexivity|].
  intros [H _]. vm_compute in H. discriminate H.
Qed.

(** Without a response, without a body, or with a body that has an [error]
    member, the classifier returns. *)
Lemma _error_returns (err : JsVal) (resp : option Response) :
  bodyAbsentOrHasError resp = true -> exists e, Facebook._error err resp = Ok e.
Proof.
  intros Hd.
  destruct (Facebook._error err resp) as [e|] eqn:He; [exists e; reflexivity|].
  exfalso. destruct resp as [r|]; [|discriminate He].
  unfold bodyAbsentOrHasError in Hd. unfold Facebook._error in He.
  destruct (truthy (body r)) eqn:Hb; simpl in Hd; [|discriminate He].
  rewrite (get_errorOf _ Hb) in He. simpl in He.
  apply negb_true_iff in Hd.
  destruct (get (errorOf (body r)) "code") as [c|] eqn:Hc;
    [|destruct (errorOf (body r)); discriminate].
  simpl in He.
  destruct (strict_eq_num c 190); [discriminate He|].
  destruct (truthy (errorOf (body r))); [|discriminate He].
  rewrite (get_messageOf _ Hd) in He. discriminate He.
Qed.

(** C5, amended: when the metadata request succeeds and the probe of the
    media URL fails, [size] logs the failure and completes with an unknown
    size: [done] is called once, without error and without size. A failure
    of the metadata request is not swallowed: no callback without error is
    made, and when the failing reply has no response, or a response without
    body or whose body has an [error] member, [done] receives, once, the
    error the classifier returns for that reply. *)
Theorem C5_probe_failure_swallowed
    (client : Request -> Reply) (getURLMeta : JsVal -> Settled)
    (resolution : JsVal -> Z) (p : Params) :
  let metadata := client (Facebook.itemRequest p) in
  (forall mediaUrl reason,
      succeeded metadata = true ->
      Facebook._getMediaUrl resolution (rbody metadata) = Ok mediaUrl ->
      getURLMeta mediaUrl = Rejected reason ->
      Facebook.size client getURLMeta resolution p
      = [ EvRequest (Facebook.itemRequest p);
          EvProbe mediaUrl;
          EvLog reason "provider.facebook.size.error";
          Deliver JUndefined JUndefined ]
      /\ swallowedIntoUnknownSize (Facebook.size client getURLMeta resolution p))
  /\ (Facebook.failed metadata = Ok true ->
      existsb isResult (Facebook.size client getURLMeta resolution p) = false
      /\ ~ swallowedIntoUnknownSize (Facebook.size client getURLMeta resolution p)
      /\ (bodyAbsentOrHasError (resp metadata) = true ->
          exists e,
            Facebook._error (err metadata) (resp metadata) = Ok e
            /\ truthy e = true
            /\ Facebook.size client getURLMeta resolution p
               = [ EvRequest (Facebook.itemRequest p);
                   EvLog e "provider.facebook.size.error";
                   Deliver e JUndefined ])).
Proof.
  intros metadata. split.
  - intros mediaUrl reason Hs Hu Hr.
    assert (Facebook.size client getURLMeta resolution p
            = [ EvRequest (Facebook.itemRequest p); EvProbe mediaUrl;
                EvLog reason "provider.facebook.size.error";
                Deliver JUndefined JUndefined ]) as Heq.
    { unfold Facebook.size. fold metadata.
      apply failed_succeeded in Hs. rewrite Hs. simpl.
      rewrite Hu. simpl. rewrite Hr. reflexivity. }
    split; [exact Heq|]. rewrite Heq. split; [reflexivity|].
    right; right; right; left; reflexivity.
  - intros Hf.
    assert (Facebook.size client getURLMeta resolution p
            = EvRequest (Facebook.itemRequest p) ::
              match Facebook._error (err metadata) (resp metadata) with
              | Ok e => [EvLog e "provider.facebook.size.error"; Deliver e JUndefined]
              | Throw => [Uncaught]
              end) as Heq.
    { unfold Facebook.size. fold metadata. rewrite Hf. simpl.
      destruct (Facebook._error (err metadata) (resp metadata)); reflexivity. }
    rewrite Heq.
    destruct (Facebook._error (err metadata) (resp metadata)) as [e|] eqn:He.
    + pose proof (classified_truthy _ _ Hf He) as Ht.
      split; [simpl; rewrite Ht; reflexivity|].
      split.
      * intros [_ Hin]. destruct Hin as [H|[H|[H|[]]]]; try discriminate H.
        inversion H; subst. discriminate Ht.
      * intros _. exists e. auto.
    + split; [reflexivity|]. split.
      * intros [_ Hin]. destruct Hin as [H|[H|[]]]; discriminate H.
      * intros Hd. destruct (_error_returns (err metadata) _ Hd) as [e He'].
        congruence.
Qed.

Lemma C5_probe_failure_witness :
  Facebook.size SizeFixture.clientUp SizeFixture.probeDown SizeFixture.width Fixture.params
  = [ EvRequest (Facebook.itemRequest Fixture.params);
      EvProbe (JStr "https://cdn.example/p1_2048.jpg");
      EvLog (JError "ETIMEDOUT") "provider.facebook.size.error";
      Deliver JUndefined JUndefined ]
  /\ exists e,
       Facebook._error (JError "ECONNRESET") None = Ok e
       /\ truthy e = true
       /\ Facebook.size SizeFixture.clientDown SizeFixture.probeDown SizeFixture.width
            Fixture.params
          = [ EvRequest (Facebook.itemRequest Fixture.params);
              EvLog e "provider.facebook.size.error";
              Deliver e JUndefined ].
Proof.
  split.
  - destruct (C5_probe_failure_swallowed SizeFixture.clientUp SizeFixture.probeDown
                SizeFixture.width Fixture.params) as [H _].
    apply (H (JStr "https://cdn.example/p1_2048.jpg") (JError "ETIMEDOUT")
             eq_refl eq_refl eq_refl).
  - destruct (C5_probe_failure_swallowed SizeFixture.clientDown SizeFixture.probeDown
                SizeFixture.width Fixture.params) as [_ H].
    destruct (H eq_refl) as (_ & _ & Hdel).
    exact (Hdel eq_refl).
Defined.

(** ** sortImages and _getMediaUrl *)

Section SortImages.

Variable resolution : JsVal -> Z.


Lemma insertImage_perm (x : JsVal) (l : list JsVal) :
  Permutation (x :: l) (Facebook.insertImage resolution x l).
Proof.
  induction l as [|y l IH]; simpl; [reflexivity|].
  destruct (resolution x <=? resolution y); [reflexivity|].
  rewrite perm_swap. apply perm_skip. exact IH.
Qed.

Lemma sortImages_perm (l : list JsVal) :
  Permutation l (Facebook.sortImages resolution l).
Proof.
  induction l as [|x l IH]; simpl; [reflexivity|].
  rewrite <- insertImage_perm. apply perm_skip. exact IH.
Qed.

Lemma insertImage_sorted (x : JsVal) (l : list JsVal) :
  StronglySorted (fun a b => resolution a <= resolution b) l ->
  StronglySorted (fun a b => resolution a <= resolution b)
    (Facebook.insertImage resolution x l).
Proof.
  induction 1 as [|y l Hs IH Hy]; simpl.
  - repeat constructor.
  - destruct (resolution x <=? resolution y) eqn:Hc.
    + apply Z.leb_le in Hc.
      constructor; [constructor; assumption|].
      constructor; [exact Hc|].
      eapply Forall_impl; [|exact Hy]. simpl. intros; lia.
    + apply Z.leb_gt in Hc.
      constructor; [exact IH|].
      eapply Permutation_Forall; [apply insertImage_perm|].
      constructor; [lia|exact Hy].
Qed.

Lemma sortImages_sorted (l : list JsVal) :
  StronglySorted (fun a b => resolution a <= resolution b)
    (Facebook.sortImages resolution l).
Proof.
  induction l as [|x l IH]; simpl; [constructor|].
  apply insertImage_sorted. exact IH.
Qed.

(** Insertion keeps the new element ahead of the elements of the same
    resolution, so ties stay in their original order. *)
Lemma insertImage_stable (k : Z) (x : JsVal) (l : list JsVal) :
  filter (fun y => resolution y =? k) (Facebook.insertImage resolution x l)
  = filter (fun y => resolution y =? k) (x :: l).
Proof.
  induction l as [|y l IH]; [reflexivity|].
  simpl. destruct (resolution x <=? resolution y) eqn:Hc; [reflexivity|].
  apply Z.leb_gt in Hc. simpl. rewrite IH. simpl.
  destruct (resolution y =? k) eqn:Hy, (resolution x =? k) eqn:Hx; try reflexivity.
  apply Z.eqb_eq in Hy, Hx. lia.
Qed.

Lemma sortImages_stable (k : Z) (l : list JsVal) :
  filter (fun y => resolution y =? k) (Facebook.sortImages resolution l)
  = filter (fun y => resolution y =? k) l.
Proof.
  induction l as [|x l IH]; [reflexivity|].
  simpl. rewrite insertImage_stable. simpl.
  rewrite IH. reflexivity.
Qed.

Lemma insertImage_not_nil (x : JsVal) (l : list JsVal) :
  Facebook.insertImage resolution x l <> [].
Proof.
  destruct l as [|y l]; simpl; [discriminate|].
  destruct (resolution x <=? resolution y); discriminate.
Qed.

Lemma last_cons_not_nil (y d : JsVal) (l : list JsVal) :
  l <> [] -> last (y :: l) d = last l d.
Proof. destruct l; [congruence|reflexivity]. Qed.

Lemma last_insertImage_greatest (x d : JsVal) (l : list JsVal) :
  Forall (fun y => resolution y < resolution x) l ->
  last (Facebook.insertImage resolution x l) d = x.
Proof.
  induction 1 as [|y l Hy Hl IH]; [reflexivity|].
  simpl. destruct (resolution x <=? resolution y) eqn:Hc.
  - apply Z.leb_le in Hc. lia.
  - rewrite last_cons_not_nil by apply insertImage_not_nil.
    exact IH.
Qed.

Lemma last_insertImage_other (x d : JsVal) (l : list JsVal) :
  Exists (fun y => resolution x <= resolution y) l ->
  last (Facebook.insertImage resolution x l) d = last l d.
Proof.
  induction l as [|y l IH]; intros Hex; [inversion Hex|].
  simpl Facebook.insertImage.
  destruct (resolution x <=? resolution y) eqn:Hc; [reflexivity|].
  apply Z.leb_gt in Hc.
  inversion Hex as [? ? Hy|? ? Hl]; subst; [lia|].
  rewrite last_cons_not_nil by apply insertImage_not_nil.
  rewrite (IH Hl). symmetry. apply last_cons_not_nil.
  intros ->. inversion Hl.
Qed.

(** The last element of the sorted sequence is the variant of greatest
    resolution, the last such one in the original order. *)
Lemma sortImages_last (d : JsVal) (l : list JsVal) :
  l <> [] ->
  exists before image after,
    l = (before ++ image :: after)%list
    /\ Forall (fun x => resolution x <= resolution image) before
    /\ Forall (fun x => resolution x < resolution image) after
    /\ last (Facebook.sortImages resolution l) d = image.
Proof.
  induction l as [|x l IH]; [congruence|]. intros _.
  destruct l as [|y l'].
  - exists [], x, []. repeat split; constructor.
  - destruct IH as (before & m & after & Heq & Hb & Ha & Hlast); [discriminate|].
    change (Facebook.sortImages resolution (x :: y :: l'))
      with (Facebook.insertImage resolution x (Facebook.sortImages resolution (y :: l'))).
    destruct (Z.lt_ge_cases (resolution m) (resolution x)) as [Hlt|Hge].
    + exists [], x, (y :: l'). split; [reflexivity|]. split; [constructor|].
      assert (Forall (fun z => resolution z < resolution x) (y :: l')) as Hall.
      { rewrite Heq. apply Forall_app. split.
        - eapply Forall_impl; [|exact Hb]. simpl. intros; lia.
        - constructor; [exact Hlt|].
          eapply Forall_impl; [|exact Ha]. simpl. intros; lia. }
      split; [exact Hall|].
      apply last_insertImage_greatest.
      eapply Permutation_Forall; [apply sortImages_perm|exact Hall].
    + exists (x :: before), m, after.
      split; [rewrite Heq; reflexivity|].
      split; [constructor; [lia|exact Hb]|].
      split; [exact Ha|].
      rewrite last_insertImage_other; [exact Hlast|].
      apply Exists_exists. exists m. split; [|lia].
      eapply Permutation_in; [apply sortImages_perm|].
      rewrite Heq. apply in_elt.
Qed.

End SortImages.

(** [download] streams, and [size] probes, the URL [_getMediaUrl] returns. *)
Lemma download_opens_media_url
    (client : Request -> Reply) (request : JsVal -> list StreamEvent)
    (resolution : JsVal -> Z) (p : Params) (mediaUrl : JsVal) :
  succeeded (client (Facebook.itemRequest p)) = true ->
  Facebook._getMediaUrl resolution (rbody (client (Facebook.itemRequest p))) = Ok mediaUrl ->
  Facebook.download client request resolution p
  = EvRequest (Facebook.itemRequest p) :: EvStream mediaUrl
      :: Facebook.forward false (request mediaUrl).
Proof.
  intros Hs Hu. unfold Facebook.download.
  apply failed_succeeded in Hs. rewrite Hs. simpl. rewrite Hu. reflexivity.
Qed.

Lemma size_probes_media_url
    (client : Request -> Reply) (getURLMeta : JsVal -> Settled)
    (resolution : JsVal -> Z) (p : Params) (mediaUrl : JsVal) :
  succeeded (client (Facebook.itemRequest p)) = true ->
  Facebook._getMediaUrl resolution (rbody (client (Facebook.itemRequest p))) = Ok mediaUrl ->
  exists rest,
    Facebook.size client getURLMeta resolution p
    = EvRequest (Facebook.itemRequest p) :: EvProbe mediaUrl :: rest.
Proof.
  intros Hs Hu. unfold Facebook.size.
  apply failed_succeeded in Hs. rewrite Hs. simpl. rewrite Hu. simpl.
  eexists. reflexivity.
Qed.

(** C8: for a metadata body whose [images] is a non-empty array, the sorted
    sequence is in ascending order of resolution, holds the same variants,
    and keeps variants of equal resolution in their original order; its
    last element is a variant of greatest resolution (the last such one of
    the original list), and [_getMediaUrl] returns the [source] of that
    variant. *)
Theorem C8_media_url_is_largest_variant
    (resolution : JsVal -> Z) (body : JsVal) (images : list JsVal) :
  get body "images" = Ok (JArr images) ->
  images <> [] ->
  let sorted := Facebook.sortImages resolution images in
  StronglySorted (fun a b => resolution a <= resolution b) sorted
  /\ Permutation images sorted
  /\ (forall k, filter (fun x => resolution x =? k) sorted
                = filter (fun x => resolution x =? k) images)
  /\ exists before image after,
       images = (before ++ image :: after)%list
       /\ Forall (fun x => resolution x <= resolution image) before
       /\ Forall (fun x => resolution x < resolution image) after
       /\ last sorted JUndefined = image
       /\ Facebook._getMediaUrl resolution body = get image "source".
Proof.
  intros Hget Hne sorted.
  split; [apply sortImages_sorted|].
  split; [apply sortImages_perm|].
  split; [intros k; apply sortImages_stable|].
  destruct (sortImages_last resolution JUndefined images Hne)
    as (before & image & after & Heq & Hb & Ha & Hlast).
  exists before, image, after. repeat (split; [assumption|]).
  unfold Facebook._getMediaUrl. rewrite Hget. simpl. rewrite Hlast. reflexivity.
Qed.

Lemma C8_media_url_witness :
  Facebook._getMediaUrl SizeFixture.width SizeFixture.photo
  = Ok (JStr "https://cdn.example/p1_2048.jpg").
Proof.
  destruct (C8_media_url_is_largest_variant SizeFixture.width SizeFixture.photo
              [JObj [("source", JStr "https://cdn.example/p1_720.jpg"); ("width", JNum 720)];
               JObj [("source", JStr "https://cdn.example/p1_2048.jpg"); ("width", JNum 2048)];
               JObj [("source", JStr "https://cdn.example/p1_130.jpg"); ("width", JNum 130)]]
              eq_refl ltac:(discriminate))
    as (_ & _ & _ & before & image & after & _ & _ & _ & Hlast & Hurl).
  rewrite Hurl, <- Hlast. reflexivity.
Defined.

(** ** download *)

Lemma neverAfter_spec (P Q : Event -> bool) (t : Trace) :
  neverAfter P Q t = true ->
  forall t1 a t2 b t3,
    t = (t1 ++ a :: t2 ++ b :: t3)%list -> P a = true -> Q b = false.
Proof.
  induction t as [|e t IH]; intros Hn t1 a t2 b t3 Heq Ha.
  - destruct t1; discriminate.
  - simpl in Hn. apply andb_true_iff in Hn. destruct Hn as [Hhead Htail].
    destruct t1 as [|x t1]; simpl in Heq; inversion Heq; subst.
    + rewrite Ha in Hhead. simpl in Hhead.
      apply negb_true_iff.
      apply (proj1 (forallb_forall _ _) Hhead b).
      apply in_elt.
    + eapply IH; [exact Htail|reflexivity|exact Ha].
Qed.

Lemma _error_response_truthy (err : JsVal) (r : Response) (e : JsVal) :
  Facebook._error err (Some r) = Ok e -> truthy e = true.
Proof.
  intros H.
  apply (classified_truthy (mkReply (JBool true) (Some r) JUndefined) e);
    [reflexivity|exact H].
Qed.

Section Forward.

Arguments Facebook._error err resp : simpl never.

(** Once the stream has emitted ['error'], or has answered with a status
    other than 200, no data chunk is forwarded any more. *)
Lemma forward_no_data (events : list StreamEvent) :
  forall responded errored ended listening,
    followsStreamContract responded errored ended events = true ->
    errored = true \/ (listening = false /\ responded = true) ->
    forallb (fun x => negb (isDataChunk x)) (Facebook.forward listening events) = true.
Proof.
  induction events as [|ev rest IH]; intros responded errored ended listening Hc Hst;
    [reflexivity|].
  destruct ev as [r|chunk| |m]; simpl in Hc |- *.
  - apply andb_true_iff in Hc. destruct Hc as [Hc Hrest].
    apply andb_true_iff in Hc. destruct Hc as [Hr He].
    apply negb_true_iff in Hr.
    destruct Hst as [->|[_ Hresp]]; [|congruence].
    destruct (negb (statusCode r =? 200)).
    + destruct (Facebook._error JNull (Some r)) as [e|] eqn:Herr; [|reflexivity].
      simpl. rewrite (_error_response_truthy _ _ _ Herr). simpl.
      eapply IH; [exact Hrest|auto].
    + eapply IH; [exact Hrest|auto].
  - apply andb_true_iff in Hc. destruct Hc as [He Hrest].
    apply negb_true_iff in He.
    destruct Hst as [->|[-> Hresp]]; [discriminate|].
    eapply IH; [exact Hrest|auto].
  - eapply IH; [exact Hc|exact Hst].
  - apply andb_true_iff in Hc. destruct Hc as [_ Hrest].
    eapply IH; [exact Hrest|auto].
Qed.

(** Once the stream has emitted ['end'], no error is signalled any more. *)
Lemma forward_no_error (events : list StreamEvent) :
  forall responded errored listening,
    followsStreamContract responded errored true events = true ->
    forallb (fun x => negb (isErrorSignal x)) (Facebook.forward listening events) = true.
Proof.
  induction events as [|ev rest IH]; intros responded errored listening Hc;
    [reflexivity|].
  destruct ev as [r|chunk| |m]; simpl in Hc |- *.
  - rewrite andb_false_r in Hc. discriminate.
  - apply andb_true_iff in Hc. destruct Hc as [_ Hrest].
    destruct listening; simpl; eapply IH; exact Hrest.
  - eapply IH; exact Hc.
  - discriminate.
Qed.

Lemma forward_ordered (events : list StreamEvent) :
  forall responded errored ended listening,
    followsStreamContract responded errored ended events = true ->
    neverAfter isErrorSignal isDataChunk (Facebook.forward listening events) = true
    /\ neverAfter isCompletionSignal isErrorSignal (Facebook.forward listening events)
       = true.
Proof.
  induction events as [|ev rest IH]; intros responded errored ended listening Hc;
    [split; reflexivity|].
  destruct ev as [r|chunk| |m]; simpl in Hc |- *.
  - apply andb_true_iff in Hc. destruct Hc as [Hc Hrest].
    destruct (negb (statusCode r =? 200)).
    + destruct (Facebook._error JNull (Some r)) as [e|] eqn:Herr; [|split; reflexivity].
      destruct (IH _ _ _ false Hrest) as [IH1 IH2].
      simpl. rewrite IH1, IH2, (_error_response_truthy _ _ _ Herr). simpl.
      rewrite (forward_no_data rest true errored ended false Hrest) by auto.
      split; reflexivity.
    + exact (IH _ _ _ true Hrest).
  - apply andb_true_iff in Hc. destruct Hc as [_ Hrest].
    destruct (IH _ _ _ listening Hrest) as [IH1 IH2].
    destruct listening; simpl; rewrite ?IH1, ?IH2; split; reflexivity.
  - destruct (IH _ _ _ listening Hc) as [IH1 IH2].
    simpl. rewrite IH1, IH2.
    rewrite (forward_no_error rest responded errored listening Hc).
    split; reflexivity.
  - apply andb_true_iff in Hc. destruct Hc as [_ Hrest].
    destruct (IH _ _ _ listening Hrest) as [IH1 IH2].
    simpl. rewrite IH1, IH2.
    rewrite (forward_no_data rest responded true ended listening Hrest) by auto.
    split; reflexivity.
Qed.

End Forward.

Lemma download_ordered
    (client : Request -> Reply) (request : JsVal -> list StreamEvent)
    (resolution : JsVal -> Z) (p : Params) :
  (forall mediaUrl,
      succeeded (client (Facebook.itemRequest p)) = true ->
      Facebook._getMediaUrl resolution (rbody (client (Facebook.itemRequest p)))
      = Ok mediaUrl ->
      followsStreamContract false false false (request mediaUrl) = true) ->
  neverAfter isErrorSignal isDataChunk (Facebook.download client request resolution p)
  = true
  /\ neverAfter isCompletionSignal isErrorSignal
       (Facebook.download client request resolution p) = true.
Proof.
  intros Hc. unfold Facebook.download.
  destruct (Facebook.failed _) as [[|]|] eqn:Hf; simpl.
  - destruct (Facebook._error _ _); simpl.
    + split; [rewrite orb_true_r|]; reflexivity.
    + split; reflexivity.
  - destruct (Facebook._getMediaUrl _ _) as [u|] eqn:Hu; simpl; [|split; reflexivity].
    apply failed_succeeded in Hf.
    exact (forward_ordered _ _ _ _ false (Hc u Hf eq_refl)).
  - split; reflexivity.
Qed.

(** Each part of what is asked of the stream is needed: a second
    ['response'] lets data follow the error of the first, and a ['response']
    after ['end'] lets an error follow the completion signal. *)
Example download_second_response :
  Facebook.download SizeFixture.clientUp DownloadFixture.secondResponse SizeFixture.width
    Fixture.params
  = [ EvRequest (Facebook.itemRequest Fixture.params);
      EvStream (JStr "https://cdn.example/p1_2048.jpg");
      Deliver (JProviderApiError (JStr "request to facebook returned 403") 403) JUndefined;
      Deliver JNull (JBuffer "JFIF") ].
Proof. reflexivity. Qed.

Example download_response_after_end :
  Facebook.download SizeFixture.clientUp DownloadFixture.responseAfterEnd SizeFixture.width
    Fixture.params
  = [ EvRequest (Facebook.itemRequest Fixture.params);
      EvStream (JStr "https://cdn.example/p1_2048.jpg");
      Deliver JNull JNull;
      Deliver (JProviderApiError (JStr "request to facebook returned 403") 403)
        JUndefined ].
Proof. reflexivity. Qed.

(** C6, as stated, fails: [download] keeps no record of what it has
    signalled and forwards the events of the stream as they come. When the
    stream emits ['data'] after ['error'], a data chunk follows the error
    signal; when it emits ['error'] after ['end'], an error signal follows
    the completion signal. *)
Lemma C6_stated_ordering_fails :
  Facebook.download SizeFixture.clientUp DownloadFixture.dataAfterError SizeFixture.width
    Fixture.params
  = [ EvRequest (Facebook.itemRequest Fixture.params);
      EvStream (JStr "https://cdn.example/p1_2048.jpg");
      Deliver JNull (JBuffer "JFIF");
      EvLog (JError "ECONNRESET") "provider.facebook.download.url.error";
      Deliver (JError "ECONNRESET") JUndefined;
      Deliver JNull (JBuffer "EOI") ]
  /\ Facebook.download SizeFixture.clientUp DownloadFixture.errorAfterEnd SizeFixture.width
       Fixture.params
     = [ EvRequest (Facebook.itemRequest Fixture.params);
         EvStream (JStr "https://cdn.example/p1_2048.jpg");
         Deliver JNull (JBuffer "JFIF");
         Deliver JNull JNull;
         EvLog (JError "ECONNRESET") "provider.facebook.download.url.error";
         Deliver (JError "ECONNRESET") JUndefined ]
  /\ ~ (forall client request resolution p t1 a t2 b t3,
          Facebook.download client request resolution p
          = (t1 ++ a :: t2 ++ b :: t3)%list ->
          (isErrorSignal a = true -> isDataChunk b = false)
          /\ (isCompletionSignal a = true -> isErrorSignal b = false)).
Proof.
  split; [reflexivity|]. split; [reflexivity|].
  intros H.
  destruct (H SizeFixture.clientUp DownloadFixture.dataAfterError SizeFixture.width
              Fixture.params
              [ EvRequest (Facebook.itemRequest Fixture.params);
                EvStream (JStr "https://cdn.example/p1_2048.jpg");
                Deliver JNull (JBuffer "JFIF");
                EvLog (JError "ECONNRESET") "provider.facebook.download.url.error" ]
              (Deliver (JError "ECONNRESET") JUndefined)
              []
              (Deliver JNull (JBuffer "EOI"))
              []
              eq_refl) as [Hdata _].
  specialize (Hdata eq_refl). discriminate Hdata.
Qed.

(** C6, amended: in every [download] whose stream on the media URL, when
    one is opened, emits ['response'] at most once and not after ['end'], no
    ['data'] after ['error'] and no ['error'] after ['end'], no data chunk
    comes after an error signal and no error signal comes after the
    completion signal; this covers a failure of the metadata request (no
    stream is opened then, and nothing is asked), a status other than 200 on
    the media URL and an ['error'] of the stream. *)
Theorem C6_download_signals_ordered
    (client : Request -> Reply) (request : JsVal -> list StreamEvent)
    (resolution : JsVal -> Z) (p : Params)
    (t1 : Trace) (a : Event) (t2 : Trace) (b : Event) (t3 : Trace) :
  (forall mediaUrl,
      succeeded (client (Facebook.itemRequest p)) = true ->
      Facebook._getMediaUrl resolution (rbody (client (Facebook.itemRequest p)))
      = Ok mediaUrl ->
      followsStreamContract false false false (request mediaUrl) = true) ->
  Facebook.download client request resolution p = (t1 ++ a :: t2 ++ b :: t3)%list ->
  (isErrorSignal a = true -> isDataChunk b = false)
  /\ (isCompletionSignal a = true -> isErrorSignal b = false).
Proof.
  intros Hc Heq.
  destruct (download_ordered client request resolution p Hc) as [H1 H2].
  split; intros Ha.
  - exact (neverAfter_spec _ _ _ H1 _ _ _ _ _ Heq Ha).
  - exact (neverAfter_spec _ _ _ H2 _ _ _ _ _ Heq Ha).
Qed.

Lemma C6_download_witness :
  Facebook.download SizeFixture.clientUp DownloadFixture.denied SizeFixture.width
    Fixture.params
  = [ EvRequest (Facebook.itemRequest Fixture.params);
      EvStream (JStr "https://cdn.example/p1_2048.jpg");
      Deliver (JProviderApiError (JStr "request to facebook returned 403") 403) JUndefined;
      Deliver JNull JNull ]
  /\ isDataChunk (Deliver JNull JNull) = false.
Proof.
  split; [reflexivity|].
  refine (proj1 (C6_download_signals_ordered SizeFixture.clientUp DownloadFixture.denied
           SizeFixture.width Fixture.params
           [ EvRequest (Facebook.itemRequest Fixture.params);
             EvStream (JStr "https://cdn.example/p1_2048.jpg") ]
           (Deliver (JProviderApiError (JStr "request to facebook returned 403") 403)
              JUndefined)
           []
           (Deliver JNull JNull)
           [] _ _) _).
  - intros mediaUrl _ _. reflexivity.
  - reflexivity.
  - reflexivity.
Defined.

(** ** The calls on the fixtures *)

Example list_albums :
  Facebook.list (Fixture.clientWith Fixture.identityOk) Fixture.adapter Fixture.params
  = [ EvRequest (mkRequest GET "https://graph.facebook.com/me/albums"
                   [("fields", "name,cover_photo,created_time,type")] "T");
      EvRequest (mkRequest GET "me" [("fields", "email")] "T");
      Deliver JNull
        (JObj [ ("username", JStr "user@example.com");
                ("items",
                 JArr [ Facebook.adaptItem Fixture.adapter
                          (JObj [("id", JStr "a1"); ("name", JStr "Holidays")]);
                        Facebook.adaptItem Fixture.adapter
                          (JObj [("id", JStr "a2"); ("name", JStr "Family")]) ]);
                ("nextPagePath", JNull) ]) ].
Proof. reflexivity. Qed.

Example list_photos_request :
  Facebook.listRequest (mkParams (Some "a1") "" "T" (Some (mkQuery (Some "c1"))))
  = mkRequest GET "https://graph.facebook.com/a1/photos"
      [("fields", "icon,images,name,width,height,created_time"); ("after", "c1")] "T".
Proof. reflexivity. Qed.

Example size_known :
  Facebook.size SizeFixture.clientUp SizeFixture.probeUp SizeFixture.width Fixture.params
  = [ EvRequest (Facebook.itemRequest Fixture.params);
      EvProbe (JStr "https://cdn.example/p1_2048.jpg");
      Deliver JNull (JNum 52113) ].
Proof. reflexivity. Qed.

Example download_broken :
  Facebook.download SizeFixture.clientUp DownloadFixture.broken SizeFixture.width
    Fixture.params
  = [ EvRequest (Facebook.itemRequest Fixture.params);
      EvStream (JStr "https://cdn.example/p1_2048.jpg");
      Deliver JNull (JBuffer "JFIF");
      EvLog (JError "ECONNRESET") "provider.facebook.download.url.error";
      Deliver (JError "ECONNRESET") JUndefined ].
Proof. reflexivity. Qed.

Example download_metadata_down :
  Facebook.download SizeFixture.clientDown DownloadFixture.broken SizeFixture.width
    Fixture.params
  = [ EvRequest (Facebook.itemRequest Fixture.params);
      EvLog (JError "ECONNRESET") "provider.facebook.download.error";
      Deliver (JError "ECONNRESET") JUndefined ].
Proof. reflexivity. Qed.

Example logout_revoked :
  Facebook.logout SizeFixture.clientUp Fixture.params
  = [ EvRequest (mkRequest DELETE "me/permissions" [] "T");
      Deliver JNull (JObj [("revoked", JBool true)]) ].
Proof. reflexivity. Qed.

(** ** Further properties of the classifier *)

(** X1: the classifier raises exactly on the responses whose body is truthy
    and has no [error] member ([undefined] or [null]); on every other input,
    with or without a response, it returns a value. *)
Theorem X1_error_raises_iff (err : JsVal) (resp : option Response) :
  Facebook._error err resp = Throw
  <-> exists r, resp = Some r
                /\ truthy (body r) = true
                /\ nullish (errorOf (body r)) = true.
Proof.
  split.
  - destruct resp as [r|]; [|discriminate].
    intros H. exists r. split; [reflexivity|].
    unfold Facebook._error in H.
    destruct (truthy (body r)) eqn:Hb; [|discriminate].
    split; [reflexivity|].
    rewrite (get_errorOf _ Hb) in H. simpl in H.
    destruct (nullish (errorOf (body r))) eqn:Hn; [reflexivity|].
    exfalso.
    destruct (get (errorOf (body r)) "code") as [c|] eqn:Hc;
      [|destruct (errorOf (body r)); discriminate].
    simpl in H.
    destruct (strict_eq_num c 190); [discriminate|].
    destruct (truthy (errorOf (body r))); [|discriminate].
    rewrite (get_messageOf _ Hn) in H. discriminate.
  - intros (r & -> & Hb & Hn). apply _error_raises; assumption.
Qed.

(** X2: when a response exists, the classifier returns a
    [ProviderAuthError] exactly when the body carries the invalid-token
    marker. *)
Theorem X2_auth_error_iff_marker (err : JsVal) (r : Response) :
  Facebook._error err (Some r) = Ok JProviderAuthError
  <-> carriesInvalidTokenMarker (body r) = true.
Proof.
  unfold Facebook._error, carriesInvalidTokenMarker. split.
  - destruct (truthy (body r)) eqn:Hb; [|discriminate].
    rewrite (get_errorOf _ Hb). simpl.
    destruct (get (errorOf (body r)) "code") as [c|] eqn:Hc; [|discriminate].
    simpl. rewrite (get_code_marker _ _ Hc).
    destruct (errorOf (body r)) as [ | |b|n|s|l|fs|d|m| | |m c'] eqn:He; simpl;
      try discriminate;
      try (match goal with |- context [if ?g then _ else _] => destruct g end;
           simpl; (reflexivity || discriminate)).
  - intros H.
    destruct (body r) as [ | |b|n|s|l|fs|d|m| | |m c'] eqn:Hb; simpl in H;
      try discriminate.
    simpl. destruct (lookup fs "error"); try discriminate.
    simpl. rewrite H. reflexivity.
Qed.

(** X3: when a response exists, whatever the classifier returns is built
    from the response alone: a [ProviderAuthError], or a [ProviderApiError]
    bearing the status code of the response. The transport error is never
    what is returned. *)
Theorem X3_response_outranks_transport_error (err : JsVal) (r : Response) (e : JsVal) :
  Facebook._error err (Some r) = Ok e ->
  (e = JProviderAuthError \/ exists msg, e = JProviderApiError msg (statusCode r))
  /\ forall err', Facebook._error err' (Some r) = Ok e.
Proof.
  intros H. split; [|intros err'; exact H].
  unfold Facebook._error in H.
  destruct (truthy (body r)).
  - destruct (get (body r) "error") as [x|]; simpl in H; [|discriminate].
    destruct (get x "code") as [c|]; simpl in H; [|discriminate].
    destruct (strict_eq_num c 190).
    + inversion H. left; reflexivity.
    + destruct (truthy x); [destruct (get x "message") as [m|]|]; simpl in H;
        inversion H; right; eexists; reflexivity.
  - simpl in H. inversion H. right; eexists; reflexivity.
Qed.

Lemma X3_response_witness :
  (JProviderApiError (JStr "An unknown error has occurred.") 500 = JProviderAuthError
   \/ exists msg,
        JProviderApiError (JStr "An unknown error has occurred.") 500
        = JProviderApiError msg 500)
  /\ forall err',
       Facebook._error err' (Some (mkResponse 500 Fixture.unknownError))
       = Ok (JProviderApiError (JStr "An unknown error has occurred.") 500).
Proof.
  apply (X3_response_outranks_transport_error (JError "ESOCKETTIMEDOUT")
           (mkResponse 500 Fixture.unknownError)).
  reflexivity.
Defined.

(** ** One callback per call *)

(** X4: [list] and [logout] invoke [done] at most once: exactly once when
    the provider raises nothing, and never when a [TypeError] escapes before
    the call; no handler of theirs wraps the call, so nothing calls [done]
    again. [thumbnail] invokes it exactly once. *)
Theorem X4_done_called_once_or_raised
    (client : Request -> Reply) (adapter : Adapter) (p : Params) :
  calledOnceOrRaised (Facebook.list client adapter p)
  /\ calledOnceOrRaised (Facebook.logout client p)
  /\ deliveries (Facebook.thumbnail p) = 1%nat.
Proof.
  unfold calledOnceOrRaised, deliveries.
  split; [|split].
  - unfold Facebook.list, Facebook._getUsername, try. simpl.
    split_cases; auto.
  - unfold Facebook.logout, try. simpl. split_cases; auto.
  - reflexivity.
Qed.

(** ** size, once the metadata is there *)

(** X5: once the metadata request has succeeded, [size] never hands an
    error to [done], whatever the probe does and whatever the metadata body
    is. *)
Theorem X5_size_no_error_after_metadata
    (client : Request -> Reply) (getURLMeta : JsVal -> Settled)
    (resolution : JsVal -> Z) (p : Params) :
  succeeded (client (Facebook.itemRequest p)) = true ->
  existsb isErrorSignal (Facebook.size client getURLMeta resolution p) = false.
Proof.
  intros Hs. unfold Facebook.size.
  apply failed_succeeded in Hs. rewrite Hs. simpl.
  destruct (Facebook._getMediaUrl _ _) as [u|]; simpl; [|reflexivity].
  destruct (getURLMeta u) as [v|e]; [|reflexivity].
  destruct (get v "size"); reflexivity.
Qed.

Lemma X5_size_witness :
  existsb isErrorSignal
    (Facebook.size SizeFixture.clientUp SizeFixture.probeDown SizeFixture.width
       Fixture.params) = false.
Proof.
  apply X5_size_no_error_after_metadata. reflexivity.
Defined.

(** X6: a probe that resolves with [null] or [undefined] is treated like a
    rejected one: the [TypeError] of the destructuring reaches [catch], is
    logged, and [done] is called without error and without size. A probe
    that resolves with any other value reports its [size] member. *)
Theorem X6_size_probe_resolution
    (client : Request -> Reply) (getURLMeta : JsVal -> Settled)
    (resolution : JsVal -> Z) (p : Params) (mediaUrl value : JsVal) :
  succeeded (client (Facebook.itemRequest p)) = true ->
  Facebook._getMediaUrl resolution (rbody (client (Facebook.itemRequest p))) = Ok mediaUrl ->
  getURLMeta mediaUrl = Resolved value ->
  Facebook.size client getURLMeta resolution p
  = EvRequest (Facebook.itemRequest p) :: EvProbe mediaUrl ::
    (if nullish value
     then [EvLog JTypeError "provider.facebook.size.error"; Deliver JUndefined JUndefined]
     else [Deliver JNull (match get value "size" with
                          | Ok s => s
                          | Throw => JUndefined
                          end)]).
Proof.
  intros Hs Hu Hv. unfold Facebook.size.
  apply failed_succeeded in Hs. rewrite Hs. simpl. rewrite Hu. simpl. rewrite Hv.
  destruct value; reflexivity.
Qed.

Lemma X6_size_probe_witness :
  Facebook.size SizeFixture.clientUp EdgeFixture.probeNull SizeFixture.width Fixture.params
  = [ EvRequest (Facebook.itemRequest Fixture.params);
      EvProbe (JStr "https://cdn.example/p1_2048.jpg");
      EvLog JTypeError "provider.facebook.size.error";
      Deliver JUndefined JUndefined ].
Proof.
  apply (X6_size_probe_resolution SizeFixture.clientUp EdgeFixture.probeNull
           SizeFixture.width Fixture.params (JStr "https://cdn.example/p1_2048.jpg") JNull);
    reflexivity.
Defined.

(** ** download, phase by phase *)

Arguments Facebook._error err resp : simpl never.

Lemma forward_no_network (events : list StreamEvent) (listening : bool) :
  existsb isNetwork (Facebook.forward listening events) = false.
Proof.
  revert listening.
  induction events as [|ev rest IH]; intros listening; [reflexivity|].
  destruct ev as [r|chunk| |m]; simpl.
  - destruct (negb (statusCode r =? 200)); [|apply IH].
    destruct (Facebook._error JNull (Some r)); simpl; [apply IH|reflexivity].
  - destruct listening; simpl; apply IH.
  - apply IH.
  - apply IH.
Qed.

(** X7: [download] issues the metadata request first and no other client
    request; it opens at most one stream, only after that request has
    succeeded, and on the URL [_getMediaUrl] returns for the metadata body.
    When the metadata request does not succeed no stream is opened. *)
Theorem X7_download_metadata_before_stream
    (client : Request -> Reply) (request : JsVal -> list StreamEvent)
    (resolution : JsVal -> Z) (p : Params) :
  exists rest,
    Facebook.download client request resolution p
    = EvRequest (Facebook.itemRequest p) :: rest
    /\ existsb isClientRequest rest = false
    /\ (List.length (filter isStreamOpen rest) <= 1)%nat
    /\ (forall mediaUrl,
          In (EvStream mediaUrl) rest ->
          succeeded (client (Facebook.itemRequest p)) = true
          /\ Facebook._getMediaUrl resolution (rbody (client (Facebook.itemRequest p)))
             = Ok mediaUrl)
    /\ (succeeded (client (Facebook.itemRequest p)) = false ->
        existsb isNetwork rest = false).
Proof.
  assert (forall l t, existsb isNetwork (Facebook.forward l t) = false
                      -> existsb isClientRequest (Facebook.forward l t) = false
                         /\ filter isStreamOpen (Facebook.forward l t) = []
                         /\ forall u, ~ In (EvStream u) (Facebook.forward l t)) as Hfw.
  { intros l t. generalize (Facebook.forward l t) as tr.
    induction tr as [|e tr IH]; intros Hn; [repeat split; auto|].
    simpl in Hn. apply orb_false_iff in Hn. destruct Hn as [He Hn].
    destruct (IH Hn) as (H1 & H2 & H3).
    destruct e; simpl in *; try discriminate; repeat split; auto;
      intros u [Hu|Hu]; try discriminate; exact (H3 u Hu). }
  eexists. split; [reflexivity|].
  destruct (succeeded (client (Facebook.itemRequest p))) eqn:Hs.
  - apply failed_succeeded in Hs. rewrite Hs. simpl.
    destruct (Facebook._getMediaUrl _ _) as [u|] eqn:Hu; simpl.
    + destruct (Hfw false (request u) (forward_no_network _ _)) as (H1 & H2 & H3).
      rewrite H1, H2. simpl.
      split; [reflexivity|]. split; [auto|]. split; [|discriminate].
      intros m [Hm|Hm]; [inversion Hm; subst; auto|destruct (H3 m Hm)].
    + split; [reflexivity|]. split; [auto|]. split; [|discriminate].
      intros m [Hm|[]]; discriminate.
  - destruct (succeeded_false_failed _ Hs) as [Hf|Hf]; rewrite Hf; simpl.
    + destruct (Facebook._error _ _); simpl;
        (split; [reflexivity|]; split; [auto|]; split; [|reflexivity]);
        intros m Hm; exfalso; simpl in Hm; intuition discriminate.
    + split; [reflexivity|]. split; [auto|]. split; [|reflexivity].
      intros m [Hm|[]]; discriminate.
Qed.

Lemma forward_chunks (chunks : list string) (rest : list StreamEvent) :
  Facebook.forward true (map SData chunks ++ rest)
  = (map (fun c => Deliver JNull (JBuffer c)) chunks ++ Facebook.forward true rest)%list.
Proof.
  induction chunks as [|c chunks IH]; [reflexivity|].
  simpl. rewrite IH. reflexivity.
Qed.

(** X8: when the metadata request succeeds and the media URL answers 200,
    then its chunks and then ['end'], [download] hands every chunk to
    [onData], unchanged and in the order received, one call per chunk, and
    then signals completion once. *)
Theorem X8_download_forwards_chunks_in_order
    (client : Request -> Reply) (request : JsVal -> list StreamEvent)
    (resolution : JsVal -> Z) (p : Params)
    (mediaUrl : JsVal) (r : Response) (chunks : list string) :
  succeeded (client (Facebook.itemRequest p)) = true ->
  Facebook._getMediaUrl resolution (rbody (client (Facebook.itemRequest p))) = Ok mediaUrl ->
  statusCode r = 200 ->
  request mediaUrl = SResponse r :: (map SData chunks ++ [SEnd])%list ->
  Facebook.download client request resolution p
  = (EvRequest (Facebook.itemRequest p) :: EvStream mediaUrl
       :: map (fun c => Deliver JNull (JBuffer c)) chunks ++ [Deliver JNull JNull])%list.
Proof.
  intros Hs Hu Hr Hreq.
  rewrite (download_opens_media_url client request resolution p mediaUrl Hs Hu).
  rewrite Hreq. simpl. rewrite Hr. simpl.
  rewrite forward_chunks. reflexivity.
Qed.

Lemma X8_download_witness :
  Facebook.download SizeFixture.clientUp EdgeFixture.twoChunks SizeFixture.width
    Fixture.params
  = [ EvRequest (Facebook.itemRequest Fixture.params);
      EvStream (JStr "https://cdn.example/p1_2048.jpg");
      Deliver JNull (JBuffer "JFIF");
      Deliver JNull (JBuffer "EOI");
      Deliver JNull JNull ].
Proof.
  apply (X8_download_forwards_chunks_in_order SizeFixture.clientUp EdgeFixture.twoChunks
           SizeFixture.width Fixture.params (JStr "https://cdn.example/p1_2048.jpg")
           (mkResponse 200 JUndefined) ["JFIF"; "EOI"]);
    reflexivity.
Defined.

Lemma forward_unattached (events : list StreamEvent) :
  existsb isResponseEvent events = false ->
  existsb isDataChunk (Facebook.forward false events) = false.
Proof.
  induction events as [|ev rest IH]; intros Hn; [reflexivity|].
  simpl in Hn. apply orb_false_iff in Hn. destruct Hn as [Hev Hn].
  destruct ev as [r|chunk| |m]; simpl in *; try discriminate; auto.
Qed.

(** X9: when the media URL answers with a status other than 200, no data
    chunk reaches [onData], whatever the stream emits afterwards (its body,
    ['end'], an ['error']), as long as it emits no second ['response']. *)
Theorem X9_download_non200_no_data
    (client : Request -> Reply) (request : JsVal -> list StreamEvent)
    (resolution : JsVal -> Z) (p : Params)
    (mediaUrl : JsVal) (r : Response) (rest : list StreamEvent) :
  Facebook._getMediaUrl resolution (rbody (client (Facebook.itemRequest p))) = Ok mediaUrl ->
  request mediaUrl = SResponse r :: rest ->
  statusCode r <> 200 ->
  existsb isResponseEvent rest = false ->
  existsb isDataChunk (Facebook.download client request resolution p) = false.
Proof.
  intros Hu Hreq Hr Hrest. unfold Facebook.download.
  destruct (Facebook.failed _) as [[|]|] eqn:Hf; simpl;
    [|rewrite Hu; simpl|reflexivity].
  - destruct (Facebook._error _ _) as [e|] eqn:He; simpl; [|reflexivity].
    rewrite (classified_truthy _ _ Hf He). reflexivity.
  - rewrite Hreq. simpl.
    apply Z.eqb_neq in Hr. rewrite Hr. simpl.
    destruct (Facebook._error JNull (Some r)) as [e|] eqn:He; [|reflexivity].
    simpl. rewrite (_error_response_truthy _ _ _ He).
    rewrite (forward_unattached rest Hrest). reflexivity.
Qed.

Lemma X9_download_witness :
  existsb isDataChunk
    (Facebook.download SizeFixture.clientUp DownloadFixture.denied SizeFixture.width
       Fixture.params) = false.
Proof.
  apply (X9_download_non200_no_data SizeFixture.clientUp DownloadFixture.denied
           SizeFixture.width Fixture.params (JStr "https://cdn.example/p1_2048.jpg")
           (mkResponse 403 JUndefined) [SData "AccessDenied"; SEnd]);
    try reflexivity.
  discriminate.
Defined.

(** X10: an item whose [images] list is empty has no media URL:
    [_getMediaUrl] raises, so after a successful metadata request [download]
    and [size] raise without opening a stream, probing, or invoking the
    callback. *)
Theorem X10_empty_images_raise
    (client : Request -> Reply) (request : JsVal -> list StreamEvent)
    (getURLMeta : JsVal -> Settled) (resolution : JsVal -> Z) (p : Params) :
  succeeded (client (Facebook.itemRequest p)) = true ->
  get (rbody (client (Facebook.itemRequest p))) "images" = Ok (JArr []) ->
  Facebook._getMediaUrl resolution (rbody (client (Facebook.itemRequest p))) = Throw
  /\ Facebook.download client request resolution p
     = [EvRequest (Facebook.itemRequest p); Uncaught]
  /\ Facebook.size client getURLMeta resolution p
     = [EvRequest (Facebook.itemRequest p); Uncaught].
Proof.
  intros Hs Hi.
  assert (Facebook._getMediaUrl resolution (rbody (client (Facebook.itemRequest p)))
          = Throw) as Hu.
  { unfold Facebook._getMediaUrl. rewrite Hi. reflexivity. }
  apply failed_succeeded in Hs.
  split; [exact Hu|].
  unfold Facebook.download, Facebook.size. rewrite Hs. simpl. rewrite Hu.
  split; reflexivity.
Qed.

Lemma X10_empty_images_witness :
  Facebook.download EdgeFixture.clientNoImages DownloadFixture.broken SizeFixture.width
    Fixture.params
  = [EvRequest (Facebook.itemRequest Fixture.params); Uncaught].
Proof.
  apply (X10_empty_images_raise EdgeFixture.clientNoImages DownloadFixture.broken
           SizeFixture.probeUp SizeFixture.width Fixture.params);
    reflexivity.
Defined.

(** ** The listing request *)

(** X11: [list] treats an empty [directory] like a missing one (the root
    albums are listed) and an empty [cursor] like a missing one (no [after]
    parameter is sent); a missing [query] behaves like [{ cursor: null }].
    With a directory and a cursor, the photos of the directory are asked
    for, after the cursor. *)
Theorem X11_list_request_edges (i t : string) (q : option Query) (d : option string) :
  Facebook.listRequest (mkParams (Some "") i t q)
  = Facebook.listRequest (mkParams None i t q)
  /\ Facebook.listRequest (mkParams d i t (Some (mkQuery (Some ""))))
     = Facebook.listRequest (mkParams d i t None)
  /\ Facebook.listRequest (mkParams d i t (Some (mkQuery None)))
     = Facebook.listRequest (mkParams d i t None)
  /\ Facebook.listRequest (mkParams None i t None)
     = mkRequest GET "https://graph.facebook.com/me/albums"
         [("fields", "name,cover_photo,created_time,type")] t
  /\ forall dir c,
       dir <> "" -> c <> "" ->
       Facebook.listRequest (mkParams (Some dir) i t (Some (mkQuery (Some c))))
       = mkRequest GET ("https://graph.facebook.com/" ++ dir ++ "/photos")
           [("fields", "icon,images,name,width,height,created_time"); ("after", c)] t.
Proof.
  repeat split.
  intros dir c Hd Hc. unfold Facebook.listRequest. simpl.
  apply String.eqb_neq in Hd, Hc. rewrite Hd, Hc. reflexivity.
Qed.

(** ** logout *)

(** X12: [logout] sends one [DELETE me/permissions] with the token and no
    query; [done] receives a result exactly when the reply reports success,
    and that result is always [{ revoked: true }]. *)
Theorem X12_logout_revoked_iff_succeeded (client : Request -> Reply) (p : Params) :
  let r := client (mkRequest DELETE "me/permissions" [] (token p)) in
  (succeeded r = true ->
   Facebook.logout client p
   = [EvRequest (mkRequest DELETE "me/permissions" [] (token p)); Deliver JNull revoked])
  /\ (forall err value,
        In (Deliver err value) (Facebook.logout client p) ->
        truthy err = false ->
        succeeded r = true /\ value = revoked).
Proof.
  intros r. unfold Facebook.logout, Facebook.logoutRequest. fold r. split.
  - intros Hs. apply failed_succeeded in Hs. rewrite Hs. reflexivity.
  - intros e v Hin He.
    destruct Hin as [Hin|Hin]; [discriminate|].
    destruct (Facebook.failed r) as [[|]|] eqn:Hf; simpl in Hin.
    + destruct Hin as [Hin|Hin]; [discriminate|].
      destruct (Facebook._error (err r) (resp r)) as [c|] eqn:Hc; simpl in Hin.
      * destruct Hin as [Hin|[]]. inversion Hin; subst.
        rewrite (classified_truthy _ _ Hf Hc) in He. discriminate.
      * destruct Hin as [Hin|[]]; discriminate.
    + destruct Hin as [Hin|[]]. inversion Hin; subst.
      split; [apply failed_succeeded; exact Hf|reflexivity].
    + destruct Hin as [Hin|[]]; discriminate.
Qed.

Lemma X12_logout_witness :
  Facebook.logout EdgeFixture.clientRevoked Fixture.params
  = [EvRequest (mkRequest DELETE "me/permissions" [] "T"); Deliver JNull revoked].
Proof.
  apply (X12_logout_revoked_iff_succeeded EdgeFixture.clientRevoked Fixture.params).
  reflexivity.
Defined.

(** ** adaptData, item by item *)

(** X13: [adaptData] raises exactly when the item list of the response is
    not an array; otherwise the items of the result follow the raw items
    one for one and in the same order, each carrying the [id], [name] and
    [requestPath] the adapter extracts from its raw item, and the result
    carries the given [username] and the adapter's next-page path. *)
Theorem X13_adaptData_items_in_order
    (adapter : Adapter) (res username : JsVal) (directory : option string)
    (currentQuery : Query) :
  match getItemSubList adapter res with
  | JArr raw =>
      exists items,
        Facebook.adaptData adapter res username directory currentQuery
        = Ok (JObj [ ("username", username);
                     ("items", JArr items);
                     ("nextPagePath",
                      getNextPagePath adapter res currentQuery directory) ])
        /\ forall n,
             match nth_error raw n with
             | Some x =>
                 exists item,
                   nth_error items n = Some item
                   /\ get item "id" = Ok (getItemId adapter x)
                   /\ get item "name" = Ok (getItemName adapter x)
                   /\ get item "requestPath" = Ok (getItemRequestPath adapter x)
             | None => nth_error items n = None
             end
  | _ => Facebook.adaptData adapter res username directory currentQuery = Throw
  end.
Proof.
  unfold Facebook.adaptData.
  destruct (getItemSubList adapter res) as [ | |b|n|s|raw|fs|d|m| | |m c]; try reflexivity.
  exists (map (Facebook.adaptItem adapter) raw). split; [reflexivity|].
  intros n. rewrite nth_error_map.
  destruct (nth_error raw n) as [x|]; [|reflexivity].
  exists (Facebook.adaptItem adapter x). repeat split.
Qed.

(** * The locale pack script *)

(** ** Objects *)

Section ObjectLemmas.

Context {A : Type}.

Lemma ownProp_assign_same (obj : list (string * A)) (k : string) (v : A) :
  LocalePacks.ownProp (LocalePacks.assignProp obj k v) k = Some v.
Proof.
  induction obj as [|[k' v'] obj IH]; simpl.
  - rewrite String.eqb_refl. reflexivity.
  - destruct (String.eqb k' k) eqn:He; simpl; rewrite He; [reflexivity|exact IH].
Qed.

Lemma ownProp_assign_other (obj : list (string * A)) (k k' : string) (v : A) :
  k <> k' ->
  LocalePacks.ownProp (LocalePacks.assignProp obj k v) k' = LocalePacks.ownProp obj k'.
Proof.
  intros Hne. induction obj as [|[k0 v0] obj IH]; simpl.
  - apply String.eqb_neq in Hne. rewrite Hne. reflexivity.
  - destruct (String.eqb k0 k) eqn:He; simpl.
    + apply String.eqb_eq in He. subst k0.
      apply String.eqb_neq in Hne. rewrite Hne. reflexivity.
    + rewrite IH. reflexivity.
Qed.

Lemma assignProp_same_value (obj : list (string * A)) (k : string) (v : A) :
  LocalePacks.ownProp obj k = Some v -> LocalePacks.assignProp obj k v = obj.
Proof.
  induction obj as [|[k' v'] obj IH]; simpl; [discriminate|].
  destruct (String.eqb k' k) eqn:He.
  - intros H; inversion H; reflexivity.
  - intros H. rewrite (IH H). reflexivity.
Qed.

Lemma ownProp_in (obj : list (string * A)) (k : string) (v : A) :
  LocalePacks.ownProp obj k = Some v -> In (k, v) obj.
Proof.
  induction obj as [|[k' v'] obj IH]; simpl; [discriminate|].
  destruct (String.eqb k' k) eqn:He.
  - apply String.eqb_eq in He. intros H; inversion H; subst. left; reflexivity.
  - intros H. right. exact (IH H).
Qed.

Lemma ownProp_none (obj : list (string * A)) (k : string) :
  LocalePacks.ownProp obj k = None <-> ~ In k (map fst obj).
Proof.
  induction obj as [|[k' v'] obj IH]; simpl; [tauto|].
  destruct (String.eqb k' k) eqn:He.
  - apply String.eqb_eq in He. split; [discriminate|]. intros H; destruct H; auto.
  - apply String.eqb_neq in He. rewrite IH. tauto.
Qed.

Lemma ownProp_nodup (obj : list (string * A)) (k : string) (v : A) :
  NoDup (map fst obj) -> In (k, v) obj -> LocalePacks.ownProp obj k = Some v.
Proof.
  induction obj as [|[k' v'] obj IH]; simpl; intros Hnd Hin; [destruct Hin|].
  inversion Hnd as [|? ? Hnotin Hnd']; subst.
  destruct Hin as [Hin|Hin].
  - inversion Hin; subst. rewrite String.eqb_refl. reflexivity.
  - destruct (String.eqb k' k) eqn:He; [|exact (IH Hnd' Hin)].
    apply String.eqb_eq in He. subst k'.
    exfalso. apply Hnotin. apply in_map_iff. exists (k, v). auto.
Qed.

End ObjectLemmas.

Lemma eqJson_true (a b : option string) : LocalePacks.eqJson a b = true <-> a = b.
Proof.
  destruct a as [x|], b as [y|]; simpl; split; try discriminate; try reflexivity.
  - intros H. apply String.eqb_eq in H. subst. reflexivity.
  - intros H. inversion H. apply String.eqb_refl.
Qed.

(** ** addLocaleToPack *)

Section PackTheorems.

Context {Value : Type}.
Variable stringify : Value -> option string.
Variable inherited : string -> bool.
Variable inheritedJson : string -> option string.

Lemma conflicts_assign_other (pack : list (string * Value)) (key k : string)
    (value v : Value) :
  key <> k ->
  conflicts stringify inherited inheritedJson (LocalePacks.assignProp pack key value) k v
  = conflicts stringify inherited inheritedJson pack k v.
Proof.
  intros Hne. unfold conflicts, LocalePacks.inPack, LocalePacks.jsonInPack.
  rewrite (ownProp_assign_other pack key k value Hne). reflexivity.
Qed.

(** X14: adding a list of strings is adding its first part and then, unless
    that threw, the rest to the pack so obtained; when the first part
    throws, the pack, the report and the error are those of the first
    part. *)
Theorem X14_addLocaleToPack_app
    (pack first second : list (string * Value)) (pluginName : string) :
  LocalePacks.addLocaleToPack stringify inherited inheritedJson pack
    (first ++ second)%list pluginName
  = match LocalePacks.addLocaleToPack stringify inherited inheritedJson pack first
            pluginName with
    | (pack', _, LocalePacks.Returned) =>
        LocalePacks.addLocaleToPack stringify inherited inheritedJson pack' second
          pluginName
    | thrown => thrown
    end.
Proof.
  revert pack. induction first as [|[key value] first IH]; intros pack; [reflexivity|].
  simpl.
  destruct (LocalePacks.inPack inherited pack key
            && negb (LocalePacks.eqJson (stringify value)
                       (LocalePacks.jsonInPack stringify inherited inheritedJson pack key)));
    [reflexivity|apply IH].
Qed.

Lemma addLocaleToPack_other_keys
    (strs pack pack' : list (string * Value)) (pluginName k : string)
    (reports : list LocalePacks.PackReport) (outcome : LocalePacks.Outcome) :
  LocalePacks.addLocaleToPack stringify inherited inheritedJson pack strs pluginName
  = (pack', reports, outcome) ->
  ~ In k (map fst strs) ->
  LocalePacks.ownProp pack' k = LocalePacks.ownProp pack k.
Proof.
  revert pack. induction strs as [|[key value] strs IH]; intros pack Hrun Hk.
  - inversion Hrun. reflexivity.
  - simpl in Hrun, Hk.
    destruct (LocalePacks.inPack inherited pack key && _).
    + inversion Hrun. reflexivity.
    + rewrite (IH _ Hrun) by tauto.
      apply ownProp_assign_other. tauto.
Qed.

(** X15: when [addLocaleToPack] returns, the pack holds every string of the
    plugin under its key, every other key of the pack is as it was, and
    nothing was printed. *)
Theorem X15_addLocaleToPack_returns
    (strs pack pack' : list (string * Value)) (pluginName : string)
    (reports : list LocalePacks.PackReport) :
  NoDup (map fst strs) ->
  LocalePacks.addLocaleToPack stringify inherited inheritedJson pack strs pluginName
  = (pack', reports, LocalePacks.Returned) ->
  reports = []
  /\ (forall k v, In (k, v) strs -> LocalePacks.ownProp pack' k = Some v)
  /\ (forall k, ~ In k (map fst strs) ->
                LocalePacks.ownProp pack' k = LocalePacks.ownProp pack k).
Proof.
  intros Hnd Hrun.
  split; [|split].
  - revert pack Hrun. clear Hnd.
    induction strs as [|[key value] strs IH]; intros pack Hrun; simpl in Hrun.
    + inversion Hrun. reflexivity.
    + destruct (LocalePacks.inPack inherited pack key && _); [discriminate|].
      exact (IH _ Hrun).
  - revert pack Hrun.
    induction strs as [|[key value] strs IH]; intros pack Hrun k v Hin;
      [destruct Hin|].
    simpl in Hrun, Hnd. inversion Hnd as [|? ? Hnotin Hnd']; subst.
    destruct (LocalePacks.inPack inherited pack key && _); [discriminate|].
    destruct Hin as [Hin|Hin].
    + inversion Hin; subst.
      rewrite (addLocaleToPack_other_keys _ _ _ _ _ _ _ Hrun Hnotin).
      apply ownProp_assign_same.
    + exact (IH Hnd' _ Hrun k v Hin).
  - intros k Hk. exact (addLocaleToPack_other_keys _ _ _ _ _ _ _ Hrun Hk).
Qed.

(** X16: [addLocaleToPack] throws exactly when some string of the plugin
    is, under its key, already in the pack with another JSON text; it stops
    at the first such key in the order of the plugin, names it in the
    error, and prints the plugin name, the key and both JSON texts. *)
Theorem X16_addLocaleToPack_throws_at_first_conflict
    (strs pack : list (string * Value)) (pluginName : string) :
  NoDup (map fst strs) ->
  match LocalePacks.addLocaleToPack stringify inherited inheritedJson pack strs
          pluginName with
  | (_, _, LocalePacks.Returned) =>
      forall k v, In (k, v) strs ->
                  conflicts stringify inherited inheritedJson pack k v = false
  | (_, reports, LocalePacks.ThrewError message) =>
      exists before k v after,
        strs = (before ++ (k, v) :: after)%list
        /\ (forall k' v', In (k', v') before ->
                          conflicts stringify inherited inheritedJson pack k' v' = false)
        /\ conflicts stringify inherited inheritedJson pack k v = true
        /\ message = "Duplicate locale key: '" ++ k ++ "'"
        /\ reports
           = [ LocalePacks.DuplicateKey pluginName k;
               LocalePacks.ValueInPlugin (stringify v);
               LocalePacks.ValueInPack
                 (LocalePacks.jsonInPack stringify inherited inheritedJson pack k);
               LocalePacks.BlankLine ]
  | _ => False
  end.
Proof.
  intros Hnd.
  assert (forall done todo current,
             strs = (done ++ todo)%list ->
             (forall k v, In (k, v) done ->
                          conflicts stringify inherited inheritedJson pack k v = false) ->
             (forall k v, In (k, v) todo ->
                          conflicts stringify inherited inheritedJson current k v
                          = conflicts stringify inherited inheritedJson pack k v
                          /\ LocalePacks.jsonInPack stringify inherited inheritedJson
                               current k
                             = LocalePacks.jsonInPack stringify inherited inheritedJson
                                 pack k) ->
             match LocalePacks.addLocaleToPack stringify inherited inheritedJson current
                     todo pluginName with
             | (_, _, LocalePacks.Returned) =>
                 forall k v, In (k, v) strs ->
                             conflicts stringify inherited inheritedJson pack k v = false
             | (_, reports, LocalePacks.ThrewError message) =>
                 exists before k v after,
                   strs = (before ++ (k, v) :: after)%list
                   /\ (forall k' v', In (k', v') before ->
                         conflicts stringify inherited inheritedJson pack k' v' = false)
                   /\ conflicts stringify inherited inheritedJson pack k v = true
                   /\ message = "Duplicate locale key: '" ++ k ++ "'"
                   /\ reports
                      = [ LocalePacks.DuplicateKey pluginName k;
                          LocalePacks.ValueInPlugin (stringify v);
                          LocalePacks.ValueInPack
                            (LocalePacks.jsonInPack stringify inherited inheritedJson
                               pack k);
                          LocalePacks.BlankLine ]
             | _ => False
             end) as Hgen.
  { intros done todo. revert done.
    induction todo as [|[key value] todo IH]; intros done current Hsplit Hdone Hsame.
    - simpl. rewrite app_nil_r in Hsplit. subst done. exact Hdone.
    - simpl.
      destruct (Hsame key value (or_introl eq_refl)) as [Hc Hj].
      fold (conflicts stringify inherited inheritedJson current key value).
      rewrite Hc.
      destruct (conflicts stringify inherited inheritedJson pack key value) eqn:Hconf.
      + exists done, key, value, todo. rewrite Hj. auto.
      + apply (IH (done ++ [(key, value)])%list).
        * rewrite <- app_assoc. exact Hsplit.
        * intros k v Hin. apply in_app_or in Hin.
          destruct Hin as [Hin|[Hin|[]]]; [exact (Hdone k v Hin)|].
          inversion Hin; subst. exact Hconf.
        * intros k v Hin.
          assert (key <> k) as Hne.
          { intros ->. rewrite Hsplit in Hnd. rewrite map_app in Hnd.
            apply NoDup_remove_2 in Hnd. apply Hnd.
            apply in_or_app. right. apply in_map_iff. exists (k, v). auto. }
          destruct (Hsame k v (or_intror Hin)) as [Hc' Hj'].
          split.
          -- rewrite conflicts_assign_other by exact Hne. exact Hc'.
          -- unfold LocalePacks.jsonInPack in *.
             rewrite (ownProp_assign_other current key k value Hne). exact Hj'. }
  apply (Hgen [] strs pack); auto. intros k v [].
Qed.

Lemma addLocaleToPack_present
    (strs pack : list (string * Value)) (pluginName : string) :
  (forall k v, In (k, v) strs -> LocalePacks.ownProp pack k = Some v) ->
  LocalePacks.addLocaleToPack stringify inherited inheritedJson pack strs pluginName
  = (pack, [], LocalePacks.Returned).
Proof.
  induction strs as [|[key value] strs IH]; intros Hall; [reflexivity|].
  simpl.
  assert (LocalePacks.ownProp pack key = Some value) as Hown
      by (apply Hall; left; reflexivity).
  unfold LocalePacks.jsonInPack, LocalePacks.inPack. rewrite Hown.
  rewrite (proj2 (eqJson_true _ _) eq_refl). simpl.
  rewrite (assignProp_same_value _ _ _ Hown).
  apply IH. intros k v Hin. apply Hall. right; exact Hin.
Qed.

(** X17: adding the same plugin a second time never throws and leaves the
    pack exactly as the first addition left it. *)
Theorem X17_addLocaleToPack_again
    (strs pack pack' : list (string * Value)) (pluginName : string)
    (reports : list LocalePacks.PackReport) :
  NoDup (map fst strs) ->
  LocalePacks.addLocaleToPack stringify inherited inheritedJson pack strs pluginName
  = (pack', reports, LocalePacks.Returned) ->
  LocalePacks.addLocaleToPack stringify inherited inheritedJson pack' strs pluginName
  = (pack', [], LocalePacks.Returned).
Proof.
  intros Hnd Hrun. apply addLocaleToPack_present.
  revert pack Hrun.
  induction strs as [|[key value] strs IH]; intros pack Hrun k v Hin; [destruct Hin|].
  simpl in Hrun, Hnd. inversion Hnd as [|? ? Hnotin Hnd']; subst.
  destruct (LocalePacks.inPack inherited pack key && _); [discriminate|].
  destruct Hin as [Hin|Hin].
  - inversion Hin; subst.
    rewrite (addLocaleToPack_other_keys _ _ _ _ _ _ _ Hrun Hnotin).
    apply ownProp_assign_same.
  - exact (IH Hnd' _ Hrun k v Hin).
Qed.

Lemma agrees_assign (pack : list (string * Value)) (key k : string) (value v : Value) :
  conflicts stringify inherited inheritedJson pack key value = false ->
  agrees stringify pack k v ->
  agrees stringify (LocalePacks.assignProp pack key value) k v.
Proof.
  intros Hconf (v0 & Hown & Hjson).
  destruct (String.eqb key k) eqn:He.
  - apply String.eqb_eq in He. subst k.
    exists value. split; [apply ownProp_assign_same|].
    unfold conflicts, LocalePacks.inPack, LocalePacks.jsonInPack in Hconf.
    rewrite Hown in Hconf. simpl in Hconf.
    apply negb_false_iff in Hconf. apply eqJson_true in Hconf. congruence.
  - apply String.eqb_neq in He.
    exists v0. split; [|exact Hjson].
    rewrite (ownProp_assign_other pack key k value He). exact Hown.
Qed.

Lemma addLocaleToPack_agrees
    (strs pack pack' : list (string * Value)) (pluginName : string)
    (reports : list LocalePacks.PackReport) :
  LocalePacks.addLocaleToPack stringify inherited inheritedJson pack strs pluginName
  = (pack', reports, LocalePacks.Returned) ->
  (forall k v, agrees stringify pack k v -> agrees stringify pack' k v)
  /\ (forall k v, In (k, v) strs -> agrees stringify pack' k v).
Proof.
  revert pack. induction strs as [|[key value] strs IH]; intros pack Hrun.
  - inversion Hrun; subst. split; [auto|]. intros k v [].
  - simpl in Hrun.
    fold (conflicts stringify inherited inheritedJson pack key value) in Hrun.
    destruct (conflicts stringify inherited inheritedJson pack key value) eqn:Hconf;
      [discriminate|].
    destruct (IH _ Hrun) as [Hkeep Hnew].
    split.
    + intros k v Hag. apply Hkeep. apply agrees_assign; assumption.
    + intros k v [Hin|Hin]; [|exact (Hnew k v Hin)].
      inversion Hin; subst. apply Hkeep.
      exists v. split; [apply ownProp_assign_same|reflexivity].
Qed.

(** X18: when the loop of [build] over the plugins ends without a throw,
    the pack has, for every plugin and every one of its strings, an own
    property under that key whose JSON text is that of the plugin's string:
    plugins sharing a key agree on it, and what the pack held at the start
    is kept up to JSON text. *)
Theorem X18_addPlugins_pack_agrees_with_plugins
    (plugins : list (string * list (string * Value)))
    (pack pack' : list (string * Value)) (reports : list LocalePacks.PackReport) :
  LocalePacks.addPlugins stringify inherited inheritedJson pack plugins
  = (pack', reports, LocalePacks.Returned) ->
  (forall pluginName strs k v,
      In (pluginName, strs) plugins -> In (k, v) strs -> agrees stringify pack' k v)
  /\ (forall k v, agrees stringify pack k v -> agrees stringify pack' k v).
Proof.
  revert pack. induction plugins as [|[name strs0] plugins IH]; intros pack Hrun.
  - inversion Hrun; subst. split; [|auto]. intros ? ? ? ? [].
  - simpl in Hrun.
    destruct (LocalePacks.addLocaleToPack stringify inherited inheritedJson pack strs0 name)
      as [[pack1 reports1] outcome1] eqn:Hadd.
    destruct outcome1; try discriminate.
    destruct (addLocaleToPack_agrees _ _ _ _ _ Hadd) as [Hkeep1 Hnew1].
    destruct (IH _ Hrun) as [Hall Hkeep].
    split.
    + intros pluginName strs k v [Hin|Hin] Hkv.
      * inversion Hin; subst. apply Hkeep. exact (Hnew1 k v Hkv).
      * exact (Hall pluginName strs k v Hin Hkv).
    + intros k v Hag. apply Hkeep. apply Hkeep1. exact Hag.
Qed.

End PackTheorems.

Lemma X15_addLocaleToPack_witness :
  LocalePacks.ownProp
    [("cancel", "Cancel"); ("done", "Done"); ("retry", "Retry"); ("back", "Back")] "back"
  = Some "Back".
Proof.
  refine (proj1 (proj2 (X15_addLocaleToPack_returns PackFixture.json PackFixture.inherited
            PackFixture.inheritedJson PackFixture.dashboard PackFixture.core
            [("cancel", "Cancel"); ("done", "Done"); ("retry", "Retry"); ("back", "Back")]
            "dashboard" [] _ _)) "back" "Back" _).
  - repeat constructor; simpl; intuition discriminate.
  - reflexivity.
  - right; left; reflexivity.
Defined.

Lemma X16_addLocaleToPack_witness :
  exists before k v after,
    PackFixture.statusBar = (before ++ (k, v) :: after)%list
    /\ (forall k' v', In (k', v') before ->
          conflicts PackFixture.json PackFixture.inherited PackFixture.inheritedJson
            PackFixture.core k' v' = false)
    /\ conflicts PackFixture.json PackFixture.inherited PackFixture.inheritedJson
         PackFixture.core k v = true
    /\ "Duplicate locale key: 'retry'" = "Duplicate locale key: '" ++ k ++ "'"
    /\ [ LocalePacks.DuplicateKey "status-bar" "retry";
         LocalePacks.ValueInPlugin (Some "'Retry upload'");
         LocalePacks.ValueInPack (Some "'Retry'");
         LocalePacks.BlankLine ]
       = [ LocalePacks.DuplicateKey "status-bar" k;
           LocalePacks.ValueInPlugin (PackFixture.json v);
           LocalePacks.ValueInPack
             (LocalePacks.jsonInPack PackFixture.json PackFixture.inherited
                PackFixture.inheritedJson PackFixture.core k);
           LocalePacks.BlankLine ].
Proof.
  refine (X16_addLocaleToPack_throws_at_first_conflict PackFixture.json
            PackFixture.inherited PackFixture.inheritedJson PackFixture.statusBar
            PackFixture.core "status-bar" _).
  repeat constructor; simpl; intuition discriminate.
Defined.

Lemma X17_addLocaleToPack_witness :
  LocalePacks.addLocaleToPack PackFixture.json PackFixture.inherited
    PackFixture.inheritedJson
    [("cancel", "Cancel"); ("done", "Done"); ("retry", "Retry"); ("back", "Back")]
    PackFixture.dashboard "dashboard"
  = ([("cancel", "Cancel"); ("done", "Done"); ("retry", "Retry"); ("back", "Back")],
     [], LocalePacks.Returned).
Proof.
  apply (X17_addLocaleToPack_again PackFixture.json PackFixture.inherited
           PackFixture.inheritedJson PackFixture.dashboard PackFixture.core _
           "dashboard" []).
  - repeat constructor; simpl; intuition discriminate.
  - reflexivity.
Defined.

Lemma X18_addPlugins_witness :
  agrees PackFixture.json
    [("cancel", "Cancel"); ("done", "Done"); ("retry", "Retry"); ("back", "Back")]
    "done" "Done".
Proof.
  refine (proj1 (X18_addPlugins_pack_agrees_with_plugins PackFixture.json
            PackFixture.inherited PackFixture.inheritedJson
            [("core", PackFixture.core); ("dashboard", PackFixture.dashboard)]
            [] _ [] _) "dashboard" PackFixture.dashboard "done" "Done" _ _).
  - reflexivity.
  - right; left; reflexivity.
  - left; reflexivity.
Defined.

(** ** test *)

Section ReadLocales.

Context {A : Type}.
Variable payload : LocalePacks.LocaleFile -> A.

Lemma assignProp_fresh (obj : list (string * A)) (k : string) (v : A) :
  ~ In k (map fst obj) -> LocalePacks.assignProp obj k v = (obj ++ [(k, v)])%list.
Proof.
  induction obj as [|[k' v'] obj IH]; simpl; intros Hk; [reflexivity|].
  destruct (String.eqb k' k) eqn:He.
  - apply String.eqb_eq in He. tauto.
  - rewrite IH by tauto. reflexivity.
Qed.

(** With distinct file names the object built by the [forEach] has one
    property per file, in the order of the files. *)
Lemma read_files (files : list LocalePacks.LocaleFile) (acc : list (string * A)) :
  NoDup (map fst acc ++ map LocalePacks.localeName files) ->
  fold_left (fun obj f => LocalePacks.assignProp obj (LocalePacks.localeName f) (payload f))
    files acc
  = (acc ++ map (fun f => (LocalePacks.localeName f, payload f)) files)%list.
Proof.
  revert acc. induction files as [|f files IH]; intros acc Hnd; simpl.
  - rewrite app_nil_r. reflexivity.
  - rewrite assignProp_fresh.
    + rewrite IH.
      * rewrite <- app_assoc. reflexivity.
      * rewrite map_app. simpl. rewrite <- app_assoc. exact Hnd.
    + simpl in Hnd. apply NoDup_remove_2 in Hnd.
      intros Hin. apply Hnd. apply in_or_app. left; exact Hin.
Qed.

Lemma deleteProp_files (files : list LocalePacks.LocaleFile) :
  LocalePacks.deleteProp (map (fun f => (LocalePacks.localeName f, payload f)) files)
    LocalePacks.leadingLocaleName
  = map (fun f => (LocalePacks.localeName f, payload f)) (followersOf files).
Proof.
  induction files as [|f files IH]; [reflexivity|].
  simpl. destruct (String.eqb (LocalePacks.localeName f) LocalePacks.leadingLocaleName);
    simpl; rewrite IH; reflexivity.
Qed.

Lemma ownProp_files (files : list LocalePacks.LocaleFile) (f : LocalePacks.LocaleFile) :
  NoDup (map LocalePacks.localeName files) ->
  In f files ->
  LocalePacks.ownProp (map (fun f => (LocalePacks.localeName f, payload f)) files)
    (LocalePacks.localeName f)
  = Some (payload f).
Proof.
  intros Hnd Hin. apply ownProp_nodup.
  - rewrite map_map. exact Hnd.
  - apply in_map_iff. exists f. auto.
Qed.

End ReadLocales.

Lemma includes_In (keys : list string) (key : string) :
  LocalePacks.includes keys key = true <-> In key keys.
Proof.
  unfold LocalePacks.includes. rewrite existsb_exists. split.
  - intros (x & Hin & He). apply String.eqb_eq in He. subst. exact Hin.
  - intros Hin. exists key. split; [exact Hin|apply String.eqb_refl].
Qed.

Lemma compareLocales_leading
    (leading : LocalePacks.LocaleFile) (followers : list LocalePacks.LocaleFile)
    (warnings : list LocalePacks.Warning) (fatals : list LocalePacks.Fatal) :
  LocalePacks.compareLocales (Some (keysOf leading)) (LocalePacks.strings leading)
    (map (fun f => (LocalePacks.localeName f, keysOf f)) followers) warnings fatals
  = Some ((warnings ++ warningsOf leading followers)%list,
          (fatals ++ fatalsOf leading followers)%list).
Proof.
  revert warnings fatals.
  induction followers as [|f followers IH]; intros warnings fatals; simpl.
  - rewrite !app_nil_r. reflexivity.
  - rewrite IH. rewrite <- !app_assoc. reflexivity.
Qed.

(** What [test] prints and how it ends when there is an [en_US] file. *)
Lemma test_with_leading
    (files : list LocalePacks.LocaleFile) (leading : LocalePacks.LocaleFile) :
  NoDup (map LocalePacks.localeName files) ->
  In leading files ->
  LocalePacks.localeName leading = LocalePacks.leadingLocaleName ->
  let warnings := warningsOf leading (followersOf files) in
  let fatals := fatalsOf leading (followersOf files) in
  let warned :=
    if LocalePacks.nonEmpty warnings
    then [LocalePacks.ErrLine "--> Locale warnings: "; LocalePacks.ErrWarnings warnings;
          LocalePacks.ErrLine ""]
    else [] in
  LocalePacks.test files
  = if LocalePacks.nonEmpty fatals then
      ((warned ++ [LocalePacks.ErrLine "--> Locale fatal warnings: ";
                   LocalePacks.ErrFatals fatals; LocalePacks.ErrLine ""])%list,
       LocalePacks.Exited 1)
    else if negb (LocalePacks.nonEmpty warnings) then
      ((warned ++ [LocalePacks.LogAllMatching; LocalePacks.LogLine ""])%list,
       LocalePacks.Returned)
    else (warned, LocalePacks.Returned).
Proof.
  intros Hnd Hin Hname. unfold LocalePacks.test, LocalePacks.readValues,
    LocalePacks.readLocales.
  rewrite (read_files LocalePacks.strings files []) by exact Hnd.
  rewrite (read_files (fun f => map fst (LocalePacks.strings f)) files []) by exact Hnd.
  simpl app. rewrite <- Hname at 1 2.
  rewrite (ownProp_files LocalePacks.strings files leading Hnd Hin).
  rewrite (ownProp_files (fun f => map fst (LocalePacks.strings f)) files leading Hnd Hin).
  rewrite (deleteProp_files (fun f => map fst (LocalePacks.strings f)) files).
  pose proof (compareLocales_leading leading (followersOf files) [] []) as Hcmp.
  unfold keysOf in Hcmp. rewrite Hcmp. reflexivity.
Qed.

Lemma nonEmpty_exists {A : Type} (l : list A) :
  LocalePacks.nonEmpty l = true <-> exists x, In x l.
Proof.
  destruct l as [|x l]; simpl; split; try discriminate.
  - intros [x []].
  - intros _. exists x. left; reflexivity.
  - reflexivity.
Qed.

Lemma followersOf_In (files : list LocalePacks.LocaleFile) (f : LocalePacks.LocaleFile) :
  In f (followersOf files)
  <-> In f files /\ LocalePacks.localeName f <> LocalePacks.leadingLocaleName.
Proof.
  unfold followersOf. rewrite filter_In, negb_true_iff, String.eqb_neq. reflexivity.
Qed.

Lemma fatalsOf_nonEmpty (leading : LocalePacks.LocaleFile)
    (files : list LocalePacks.LocaleFile) :
  LocalePacks.nonEmpty (fatalsOf leading (followersOf files)) = true
  <-> someExcess leading files.
Proof.
  rewrite nonEmpty_exists. unfold fatalsOf, someExcess. split.
  - intros (x & Hx). apply in_flat_map in Hx. destruct Hx as (f & Hf & Hx).
    apply in_map_iff in Hx. destruct Hx as (key & _ & Hkey).
    unfold LocalePacks.excessIn in Hkey. apply filter_In in Hkey.
    destruct Hkey as [Hin Hnot]. apply followersOf_In in Hf.
    exists f, key. repeat split; try tauto.
    intros Hlead. apply includes_In in Hlead. rewrite Hlead in Hnot. discriminate.
  - intros (f & key & Hf & Hname & Hin & Hnot).
    exists (LocalePacks.ExcessString (LocalePacks.localeName f) key).
    apply in_flat_map. exists f. split; [apply followersOf_In; auto|].
    apply in_map. unfold LocalePacks.excessIn. apply filter_In.
    split; [exact Hin|]. apply negb_true_iff.
    destruct (LocalePacks.includes (keysOf leading) key) eqn:Hi; [|reflexivity].
    apply includes_In in Hi. tauto.
Qed.

Lemma warningsOf_In (leading : LocalePacks.LocaleFile)
    (files : list LocalePacks.LocaleFile) (w : LocalePacks.Warning) :
  In w (warningsOf leading (followersOf files))
  <-> exists f key,
        In f files
        /\ LocalePacks.localeName f <> LocalePacks.leadingLocaleName
        /\ In key (keysOf leading)
        /\ ~ In key (keysOf f)
        /\ w = LocalePacks.MissingString (LocalePacks.localeName f) key
                 (LocalePacks.valueText
                    (LocalePacks.ownProp (LocalePacks.strings leading) key)).
Proof.
  unfold warningsOf. rewrite in_flat_map. split.
  - intros (f & Hf & Hw). apply in_map_iff in Hw. destruct Hw as (key & Hw & Hkey).
    unfold LocalePacks.missingIn in Hkey. apply filter_In in Hkey.
    destruct Hkey as [Hin Hnot]. apply followersOf_In in Hf.
    exists f, key. repeat split; try tauto; [|symmetry; exact Hw].
    intros Hfol. apply includes_In in Hfol. rewrite Hfol in Hnot. discriminate.
  - intros (f & key & Hf & Hname & Hin & Hnot & ->).
    exists f. split; [apply followersOf_In; auto|].
    apply in_map_iff. exists key. split; [reflexivity|].
    unfold LocalePacks.missingIn. apply filter_In. split; [exact Hin|].
    apply negb_true_iff.
    destruct (LocalePacks.includes (keysOf f) key) eqn:Hi; [|reflexivity].
    apply includes_In in Hi. tauto.
Qed.

Lemma warningsOf_nonEmpty (leading : LocalePacks.LocaleFile)
    (files : list LocalePacks.LocaleFile) :
  LocalePacks.nonEmpty (warningsOf leading (followersOf files)) = true
  <-> someMissing leading files.
Proof.
  rewrite nonEmpty_exists. unfold someMissing. split.
  - intros (w & Hw). apply warningsOf_In in Hw.
    destruct Hw as (f & key & H1 & H2 & H3 & H4 & _). exists f, key. auto.
  - intros (f & key & H1 & H2 & H3 & H4). eexists. apply warningsOf_In.
    exists f, key. repeat split; eauto.
Qed.

(** X19: with an [en_US] file among files of distinct names, [test] ends
    the process with status 1 exactly when some other locale has a key that
    [en_US] does not have; otherwise it returns, however many keys of
    [en_US] the other locales lack. *)
Theorem X19_test_exits_iff_excess
    (files : list LocalePacks.LocaleFile) (leading : LocalePacks.LocaleFile) :
  NoDup (map LocalePacks.localeName files) ->
  In leading files ->
  LocalePacks.localeName leading = LocalePacks.leadingLocaleName ->
  (snd (LocalePacks.test files) = LocalePacks.Exited 1 <-> someExcess leading files)
  /\ (snd (LocalePacks.test files) = LocalePacks.Returned <-> ~ someExcess leading files).
Proof.
  intros Hnd Hin Hname.
  rewrite (test_with_leading files leading Hnd Hin Hname).
  rewrite <- fatalsOf_nonEmpty.
  destruct (LocalePacks.nonEmpty (fatalsOf leading (followersOf files))); simpl.
  - split; split; auto; try discriminate. intros H; destruct H; reflexivity.
  - destruct (negb _); simpl; split; split; auto; discriminate.
Qed.

Lemma X19_test_witness :
  snd (LocalePacks.test [LocaleFixture.en_US; LocaleFixture.de_DE; LocaleFixture.fr_FR])
  = LocalePacks.Exited 1.
Proof.
  apply (proj1 (X19_test_exits_iff_excess
                  [LocaleFixture.en_US; LocaleFixture.de_DE; LocaleFixture.fr_FR]
                  LocaleFixture.en_US
                  ltac:(repeat constructor; simpl; intuition discriminate)
                  ltac:(left; reflexivity)
                  eq_refl)).
  exists LocaleFixture.fr_FR, "dropHere".
  split; [right; right; left; reflexivity|].
  split; [discriminate|].
  split; [right; right; left; reflexivity|].
  simpl. intuition discriminate.
Defined.

(** X20: with an [en_US] file among files of distinct names, [test] prints
    that all locale strings have matching keys exactly when every other
    locale has the same set of keys as [en_US]: none in excess, none
    missing. *)
Theorem X20_test_all_matching_iff_same_keys
    (files : list LocalePacks.LocaleFile) (leading : LocalePacks.LocaleFile) :
  NoDup (map LocalePacks.localeName files) ->
  In leading files ->
  LocalePacks.localeName leading = LocalePacks.leadingLocaleName ->
  In LocalePacks.LogAllMatching (fst (LocalePacks.test files))
  <-> forall f, In f files ->
                forall key, In key (keysOf f) <-> In key (keysOf leading).
Proof.
  intros Hnd Hin Hname.
  rewrite (test_with_leading files leading Hnd Hin Hname).
  pose proof (fatalsOf_nonEmpty leading files) as Hf.
  pose proof (warningsOf_nonEmpty leading files) as Hw.
  assert (forall f, In f files ->
                    LocalePacks.localeName f = LocalePacks.leadingLocaleName ->
                    f = leading) as Hsame.
  { intros f Hfin Hfn.
    pose proof (ownProp_files (fun x => x) files f Hnd Hfin) as H1.
    pose proof (ownProp_files (fun x => x) files leading Hnd Hin) as H2.
    rewrite Hfn in H1. rewrite Hname in H2. congruence. }
  destruct (LocalePacks.nonEmpty (fatalsOf leading (followersOf files))); simpl.
  - split.
    + intros Hlog. exfalso.
      destruct (LocalePacks.nonEmpty (warningsOf leading (followersOf files)));
        simpl in Hlog; intuition discriminate.
    + intros Hall. exfalso.
      destruct (proj1 Hf eq_refl) as (f & key & H1 & H2 & H3 & H4).
      apply H4. apply (Hall f H1). exact H3.
  - destruct (LocalePacks.nonEmpty (warningsOf leading (followersOf files))); simpl.
    + split.
      * intros Hlog. exfalso. intuition discriminate.
      * intros Hall. exfalso.
        destruct (proj1 Hw eq_refl) as (f & key & H1 & H2 & H3 & H4).
        apply H4. apply (Hall f H1). exact H3.
    + split; [|auto].
      intros _ f Hfin key.
      destruct (String.eqb (LocalePacks.localeName f) LocalePacks.leadingLocaleName)
        eqn:He.
      * apply String.eqb_eq in He. rewrite (Hsame f Hfin He). reflexivity.
      * apply String.eqb_neq in He. split; intros Hk.
        -- destruct (in_dec string_dec key (keysOf leading)) as [Hy|Hn]; [exact Hy|].
           exfalso. assert (someExcess leading files) as Hex
               by (exists f, key; auto).
           apply Hf in Hex. discriminate.
        -- destruct (in_dec string_dec key (keysOf f)) as [Hy|Hn]; [exact Hy|].
           exfalso. assert (someMissing leading files) as Hex
               by (exists f, key; auto).
           apply Hw in Hex. discriminate.
Qed.

Lemma X20_test_witness :
  In LocalePacks.LogAllMatching
     (fst (LocalePacks.test [LocaleFixture.nl_NL; LocaleFixture.en_US])).
Proof.
  apply (X20_test_all_matching_iff_same_keys [LocaleFixture.nl_NL; LocaleFixture.en_US]
           LocaleFixture.en_US).
  - repeat constructor; simpl; intuition discriminate.
  - right; left; reflexivity.
  - reflexivity.
  - intros f [<-|[<-|[]]] key; simpl; tauto.
Defined.

(** X21: every key of [en_US] that another locale lacks is reported among
    the printed warnings, with the name of that locale and the key; the
    value shown is the English text when it is a plain string and
    [[object Object]] when it is an object of plural forms. *)
Theorem X21_test_reports_missing_strings
    (files : list LocalePacks.LocaleFile) (leading f : LocalePacks.LocaleFile)
    (key : string) (value : LocalePacks.LocaleValue) :
  NoDup (map LocalePacks.localeName files) ->
  In leading files ->
  LocalePacks.localeName leading = LocalePacks.leadingLocaleName ->
  NoDup (keysOf leading) ->
  In f files ->
  LocalePacks.localeName f <> LocalePacks.leadingLocaleName ->
  In (key, value) (LocalePacks.strings leading) ->
  ~ In key (keysOf f) ->
  exists warnings,
    In (LocalePacks.ErrWarnings warnings) (fst (LocalePacks.test files))
    /\ In (LocalePacks.MissingString (LocalePacks.localeName f) key
             (match value with
              | LocalePacks.Text s => s
              | LocalePacks.Plural _ => "[object Object]"
              end))
          warnings.
Proof.
  intros Hnd Hin Hname Hkeys Hf Hfn Hkv Hnot.
  rewrite (test_with_leading files leading Hnd Hin Hname).
  assert (In (LocalePacks.MissingString (LocalePacks.localeName f) key
                (match value with
                 | LocalePacks.Text s => s
                 | LocalePacks.Plural _ => "[object Object]"
                 end))
             (warningsOf leading (followersOf files))) as Hw.
  { apply warningsOf_In. exists f, key. repeat split; auto.
    - unfold keysOf. apply in_map_iff. exists (key, value). auto.
    - rewrite (ownProp_nodup _ _ _ Hkeys Hkv). destruct value; reflexivity. }
  exists (warningsOf leading (followersOf files)). split; [|exact Hw].
  assert (LocalePacks.nonEmpty (warningsOf leading (followersOf files)) = true) as Hne
      by (apply nonEmpty_exists; eexists; exact Hw).
  rewrite Hne. simpl.
  destruct (LocalePacks.nonEmpty (fatalsOf leading (followersOf files))); simpl; auto.
Qed.

Lemma X21_test_witness :
  (exists warnings,
      In (LocalePacks.ErrWarnings warnings)
         (fst (LocalePacks.test
                 [LocaleFixture.en_US; LocaleFixture.de_DE; LocaleFixture.it_IT]))
      /\ In (LocalePacks.MissingString "de_DE" "xFilesSelected" "[object Object]")
            warnings)
  /\ exists warnings,
       In (LocalePacks.ErrWarnings warnings)
          (fst (LocalePacks.test
                  [LocaleFixture.en_US; LocaleFixture.de_DE; LocaleFixture.it_IT]))
       /\ In (LocalePacks.MissingString "it_IT" "cancel" "Cancel") warnings.
Proof.
  split.
  - apply (X21_test_reports_missing_strings
             [LocaleFixture.en_US; LocaleFixture.de_DE; LocaleFixture.it_IT]
             LocaleFixture.en_US LocaleFixture.de_DE "xFilesSelected"
             (LocalePacks.Plural [("0", "%{smart_count} file selected");
                                  ("1", "%{smart_count} files selected")])).
    + repeat constructor; simpl; intuition discriminate.
    + left; reflexivity.
    + reflexivity.
    + repeat constructor; simpl; intuition discriminate.
    + right; left; reflexivity.
    + discriminate.
    + right; left; reflexivity.
    + simpl. intuition discriminate.
  - apply (X21_test_reports_missing_strings
             [LocaleFixture.en_US; LocaleFixture.de_DE; LocaleFixture.it_IT]
             LocaleFixture.en_US LocaleFixture.it_IT "cancel" (LocalePacks.Text "Cancel")).
    + repeat constructor; simpl; intuition discriminate.
    + left; reflexivity.
    + reflexivity.
    + repeat constructor; simpl; intuition discriminate.
    + right; right; left; reflexivity.
    + discriminate.
    + left; reflexivity.
    + simpl. intuition discriminate.
Defined.

Section WithoutLeading.

Context {A : Type}.
Variable payload : LocalePacks.LocaleFile -> A.

Lemma read_files_without_leading (files : list LocalePacks.LocaleFile)
    (acc : list (string * A)) :
  (forall f, In f files -> LocalePacks.localeName f <> LocalePacks.leadingLocaleName) ->
  ~ In LocalePacks.leadingLocaleName (map fst acc) ->
  (acc <> [] \/ files <> []) ->
  let obj := fold_left (fun obj f =>
                          LocalePacks.assignProp obj (LocalePacks.localeName f) (payload f))
               files acc in
  ~ In LocalePacks.leadingLocaleName (map fst obj) /\ obj <> [].
Proof.
  revert acc. induction files as [|f files IH]; intros acc Hall Hacc Hne; simpl.
  - split; [exact Hacc|]. destruct Hne as [Hne|Hne]; [exact Hne|congruence].
  - apply IH.
    + intros g Hg. apply Hall. right; exact Hg.
    + intros Hin. apply ownProp_none in Hin; [exact Hin|].
      rewrite ownProp_assign_other
        by (apply Hall; left; reflexivity).
      apply ownProp_none. exact Hacc.
    + left. destruct acc as [|[k v] acc]; simpl; [discriminate|].
      destruct (String.eqb k (LocalePacks.localeName f)); discriminate.
Qed.

Lemma deleteProp_absent (obj : list (string * A)) (k : string) :
  ~ In k (map fst obj) -> LocalePacks.deleteProp obj k = obj.
Proof.
  induction obj as [|[k' v'] obj IH]; simpl; intros Hk; [reflexivity|].
  destruct (String.eqb k' k) eqn:He.
  - apply String.eqb_eq in He. tauto.
  - rewrite IH by tauto. reflexivity.
Qed.

End WithoutLeading.

(** X22: without an [en_US] file, [test] raises a [TypeError] as soon as
    there is any locale file, printing nothing; with no locale file at all
    it prints that all locale strings have matching keys. *)
Theorem X22_test_without_leading (files : list LocalePacks.LocaleFile) :
  (forall f, In f files -> LocalePacks.localeName f <> LocalePacks.leadingLocaleName) ->
  LocalePacks.test files
  = match files with
    | [] => ([LocalePacks.LogAllMatching; LocalePacks.LogLine ""], LocalePacks.Returned)
    | _ :: _ => ([], LocalePacks.ThrewTypeError)
    end.
Proof.
  intros Hall. destruct files as [|f files]; [reflexivity|].
  assert (~ In LocalePacks.leadingLocaleName
            (map fst (LocalePacks.readLocales (f :: files)))
          /\ LocalePacks.readLocales (f :: files) <> []) as [Habsent Hne].
  { apply (read_files_without_leading (fun f => map fst (LocalePacks.strings f))
             (f :: files) [] Hall).
    - intros [].
    - right. discriminate. }
  unfold LocalePacks.test.
  generalize dependent (LocalePacks.readLocales (f :: files)).
  intros locales Habsent Hne.
  rewrite (proj2 (ownProp_none locales _) Habsent).
  rewrite (deleteProp_absent locales _ Habsent).
  destruct locales as [|[name keys] rest]; [congruence|reflexivity].
Qed.

Lemma X22_test_witness :
  LocalePacks.test [LocaleFixture.de_DE; LocaleFixture.fr_FR]
  = ([], LocalePacks.ThrewTypeError).
Proof.
  apply (X22_test_without_leading [LocaleFixture.de_DE; LocaleFixture.fr_FR]).
  intros f [<-|[<-|[]]]; discriminate.
Defined.
